(** * Entity-documentation mapping worker: a shallow embedding

    This development embeds [workers/map/main.py] (the mapping worker of the
    documentation gap finder) and checks the properties its specification
    states about it.

    Modelling conventions.
    - Python [str] values are Rocq [string]s restricted to ASCII text: the
      character classes of [re] ([\w], [[A-Z]], [[a-z]]) and [str.lower] are
      given for code points below 128 only.
    - Python [float] scores are exact rationals ([Q]); [0.4] is [4 # 10].
      The program computes in binary64, so one of its sums or quotients can
      differ from the model's in the last place: [1.0 * 0.4 + 1.0 * 0.2] is
      [0.6000000000000001] there and [6 # 10] here ([Binary64] and
      [binary64_sums] measure the difference).  What the theorems state of
      scores is chiefly how the fields of one mapping relate to each other
      and to the cuts, and the order of scores, which rounding does not
      change; where a theorem gives the value of a score, the program's
      value is that value up to rounding.
    - A raised exception is the [Raise] branch of [result]; the loops of the
      source stop at the first exception, as Python does.
    - [hashlib.md5] is embedded in full (RFC 1321), so that cache keys and
      fallback vectors are computed, not assumed.
    - [sklearn]'s [cosine_similarity] and the answers of the remote embedding
      service are the two parameters of the development (Section
      [Engine]). *)

From Stdlib Require Import String Ascii List ZArith QArith Lia Lqa Permutation Sorted.
From Stdlib Require PrimFloat.
From stdpp Require Import base gmap strings.
Import ListNotations.

Local Open Scope string_scope.

(** ** Exceptions *)

Inductive exn : Type :=
| TypeError        (* re.sub applied to a tuple *)
| ValueError.      (* sklearn: incompatible dimensions *)

Inductive result (A : Type) : Type :=
| Ok (a : A)
| Raise (e : exn).

Arguments Ok {A} a.
Arguments Raise {A} e.

Definition bind {A B : Type} (c : result A) (k : A -> result B) : result B :=
  match c with
  | Ok a => k a
  | Raise e => Raise e
  end.

Notation "'let*' x ':=' c 'in' k" := (bind c (fun x => k))
  (at level 10, x name, c at level 100, k at level 200).

Definition is_ok {A : Type} (c : result A) : bool :=
  match c with Ok _ => true | Raise _ => false end.

(** ** Characters and strings *)

Module Text.

Definition code (c : ascii) : N := N_of_ascii c.

Definition in_range (lo hi : N) (c : ascii) : bool :=
  (lo <=? code c)%N && (code c <=? hi)%N.

Definition is_upper : ascii -> bool := in_range 65 90.
Definition is_lower : ascii -> bool := in_range 97 122.
Definition is_digit : ascii -> bool := in_range 48 57.

(** [[a-zA-Z0-9]] *)
Definition is_alnum (c : ascii) : bool := is_lower c || is_upper c || is_digit c.

(** [\w] on ASCII text: letters, digits and the underscore. *)
Definition is_word (c : ascii) : bool := is_alnum c || (code c =? 95)%N.

(** The separators of the third pattern, [(?:_|-)]. *)
Definition is_sep (c : ascii) : bool := (code c =? 95)%N || (code c =? 45)%N.

(** [str.strip()] removes these on ASCII text. *)
Definition is_space (c : ascii) : bool :=
  in_range 9 13 c || in_range 28 32 c.

Definition lower_char (c : ascii) : ascii :=
  if is_upper c then ascii_of_N (code c + 32) else c.

Fixpoint map_string (f : ascii -> ascii) (s : string) : string :=
  match s with
  | EmptyString => EmptyString
  | String c s' => String (f c) (map_string f s')
  end.

(** [str.lower()] *)
Definition lower (s : string) : string := map_string lower_char s.

Fixpoint filter_string (p : ascii -> bool) (s : string) : string :=
  match s with
  | EmptyString => EmptyString
  | String c s' => if p c then String c (filter_string p s') else filter_string p s'
  end.

Fixpoint take_while (p : ascii -> bool) (s : string) : string :=
  match s with
  | EmptyString => EmptyString
  | String c s' => if p c then String c (take_while p s') else EmptyString
  end.

Fixpoint drop_while (p : ascii -> bool) (s : string) : string :=
  match s with
  | EmptyString => EmptyString
  | String c s' => if p c then drop_while p s' else s
  end.

Fixpoint drop (n : nat) (s : string) : string :=
  match n, s with
  | O, _ => s
  | S n', String _ s' => drop n' s'
  | S _, EmptyString => EmptyString
  end.

Fixpoint take (n : nat) (s : string) : string :=
  match n, s with
  | S n', String c s' => String c (take n' s')
  | _, _ => EmptyString
  end.

Definition is_empty (s : string) : bool :=
  match s with EmptyString => true | String _ _ => false end.

Fixpoint rev_string_aux (s acc : string) : string :=
  match s with
  | EmptyString => acc
  | String c s' => rev_string_aux s' (String c acc)
  end.

Definition rev_string (s : string) : string := rev_string_aux s EmptyString.

(** [str.strip()] *)
Definition strip (s : string) : string :=
  rev_string (drop_while is_space (rev_string (drop_while is_space s))).

Fixpoint starts_with (p s : string) : bool :=
  match p, s with
  | EmptyString, _ => true
  | String a p', String b s' => Ascii.eqb a b && starts_with p' s'
  | String _ _, EmptyString => false
  end.

(** [needle in hay] *)
Fixpoint contains (needle hay : string) : bool :=
  starts_with needle hay ||
  match hay with
  | EmptyString => false
  | String _ hay' => contains needle hay'
  end.

(** [s.split(sep)] for a one-character separator; never empty. *)
Fixpoint split_on (sep : ascii) (s : string) : list string :=
  match s with
  | EmptyString => [EmptyString]
  | String c s' =>
      if Ascii.eqb c sep then EmptyString :: split_on sep s'
      else match split_on sep s' with
           | [] => [String c EmptyString]
           | w :: ws => String c w :: ws
           end
  end.

(** [sep.join(parts)] *)
Fixpoint join (sep : string) (parts : list string) : string :=
  match parts with
  | [] => EmptyString
  | [p] => p
  | p :: ps => p +:+ sep +:+ join sep ps
  end.

End Text.

(** ** The three patterns of [HeuristicMatcher.name_patterns]

    [pattern.findall(text)] scans [text] from the left; at each position it
    tries to match, and after a match of length [n > 0] resumes [n]
    characters further.  None of the three patterns matches the empty
    string.  A matcher returns the captured value and the length of the
    whole match. *)

Module Re.
Import Text.

Fixpoint findall {A : Type} (m : string -> option (A * nat)) (skip : nat)
    (s : string) : list A :=
  match s with
  | EmptyString => []
  | String _ s' =>
      match skip with
      | S k => findall m k s'
      | O =>
          match m s with
          | Some (x, len) => x :: findall m (Nat.pred len) s'
          | None => findall m 0 s'
          end
      end
  end.

(** A greedy [X+] that matched [k] characters gives them back one at a time
    until the rest of the pattern ([cont]) succeeds. *)
Fixpoint backtrack {A : Type} (k : nat) (cont : nat -> option A) : option A :=
  match k with
  | O => None
  | S k' =>
      match cont k with
      | Some r => Some r
      | None => backtrack k' cont
      end
  end.

(** [(\w+)] *)
Definition match_word (s : string) : option (string * nat) :=
  let w := take_while is_word s in
  if is_empty w then None else Some (w, String.length w).

(** [([A-Z][a-z]+|[A-Z]+(?![a-z]))] *)
Definition match_camel (s : string) : option (string * nat) :=
  match s with
  | EmptyString => None
  | String c s' =>
      if is_upper c then
        let lows := take_while is_lower s' in
        if is_empty lows then
          (* second alternative: capitals not followed by a small letter *)
          backtrack (String.length (take_while is_upper s))
            (fun k =>
               match String.get k s with
               | Some d => if is_lower d then None else Some (take k s, k)
               | None => Some (take k s, k)
               end)
        else Some (String c lows, S (String.length lows))
      else None
  end.

(** [(\w+)(?:_|-)(\w+)]: two groups, so [findall] yields pairs. *)
Definition match_snake (s : string) : option ((string * string) * nat) :=
  backtrack (String.length (take_while is_word s))
    (fun k =>
       match String.get k s with
       | Some c =>
           if is_sep c then
             let w2 := take_while is_word (drop (S k) s) in
             if is_empty w2 then None
             else Some ((take k s, w2), k + 1 + String.length w2)
           else None
       | None => None
       end).

End Re.

(** ** HeuristicMatcher._extract_words *)

(** What [words] holds after the three [findall] calls: strings from the
    one-group patterns, tuples from the two-group pattern. *)
Inductive found : Type :=
| FStr (s : string)
| FTuple (a b : string).

(** [re.sub(r'[^a-zA-Z0-9]', '', word)]: a tuple is not a string. *)
Definition re_sub_non_alnum (word : found) : result string :=
  match word with
  | FStr s => Ok (Text.filter_string Text.is_alnum s)
  | FTuple _ _ => Raise TypeError
  end.

Fixpoint clean_words (words : list found) : result (list string) :=
  match words with
  | [] => Ok []
  | w :: ws =>
      let* stripped := re_sub_non_alnum w in
      let word := Text.lower stripped in
      let* rest := clean_words ws in
      Ok (if (2 <? String.length word)%nat then word :: rest else rest)
  end.

(** [set(...)]: only membership and size are ever used by the callers. *)
Definition py_set (l : list string) : list string := nodup string_dec l.

Definition found_words (text : string) : list found :=
  (map FStr (Re.findall Re.match_word 0 text)
   ++ map FStr (Re.findall Re.match_camel 0 text)
   ++ map (fun p => FTuple (fst p) (snd p)) (Re.findall Re.match_snake 0 text))%list.

Definition _extract_words (text : string) : result (list string) :=
  let* cleaned_words := clean_words (found_words text) in
  Ok (py_set cleaned_words).

(** ** Data model *)

(** An item of [signature["parameters"]]: a [str], or any other value
    (kept as its [str(p)] rendering, which [_entity_to_text] prints). *)
Inductive param : Type :=
| PStr (s : string)
| POther (rendering : string).

(** [signature: Optional[Dict[str, Any]]]: the ["parameters"] entry when the
    key is present (a list), and whether the dict has any other key. *)
Record Signature : Type := {
  parameters : option (list param);
  other_keys : bool
}.

(** A heading dict; both keys are read with [.get]. *)
Record Heading : Type := {
  text : option string;
  anchor : option string
}.

Record CodeEntity : Type := {
  id : string;
  project_id : string;
  kind : string;
  name : string;
  path : string;
  lang : string;
  signature : option Signature;
  embedding : option (list Q)
}.

(** [headings] defaults to [None]; every use is guarded by its truth value,
    for which [None] and the empty list agree, so both are [[]] here. *)
Record DocEntity : Type := {
  doc_id_of : string;
  doc_project_id : string;
  doc_path : string;
  title : option string;
  headings : list Heading;
  doc_embedding : option (list Q)
}.

Inductive Relation : Type := Describes | References | Mentions.
Inductive Confidence : Type := High | Medium | Low.

Record EntityMapping : Type := {
  mapping_id : string;
  mapping_project_id : string;
  entity_id : string;
  doc_id : string;
  mapping_anchor : option string;
  score : Q;
  relation : Relation;
  confidence : Confidence;
  heuristics_score : Q;
  embedding_score : Q;
  manual_override : bool;
  metadata : string * string * option string  (* entity_kind, entity_lang, doc_title *)
}.

Record MapRequest : Type := {
  req_project_id : string;
  use_embeddings : bool;
  use_heuristics : bool;
  min_score_threshold : Q;
  max_mappings_per_entity : Z;
  request_id : string
}.

Record MapResult : Type := {
  res_project_id : string;
  mappings : list EntityMapping;
  success : bool;
  entities_processed : nat;
  docs_processed : nat;
  mappings_created : nat;
  res_request_id : string
}.

(** Truth value of an optional list ([if item.embedding]). *)
Definition truthy {A : Type} (o : option (list A)) : bool :=
  match o with
  | Some (_ :: _) => true
  | _ => false
  end.

(** Truth value of [entity.signature]: present and a non-empty dict. *)
Definition signature_truthy (o : option Signature) : bool :=
  match o with
  | Some sg =>
      match parameters sg with Some _ => true | None => other_keys sg end
  | None => false
  end.

Definition heading_text (h : Heading) : string :=
  match text h with Some t => t | None => EmptyString end.

(** ** pathlib: [Path(p).parts] on a POSIX host *)

Definition path_root (p : string) : list string :=
  match p with
  | String "/" (String "/" (String "/" _)) => ["/"]
  | String "/" (String "/" _) => ["//"]
  | String "/" _ => ["/"]
  | _ => []
  end.

Definition path_parts (p : string) : list string :=
  (path_root p ++
   List.filter (fun x => negb (Text.is_empty x) && negb (String.eqb x "."))
     (Text.split_on "/" p))%list.

(** ** HeuristicMatcher *)

Module HeuristicMatcher.

Definition ratio (a b : nat) : Q := (Z.of_nat a # Pos.of_nat b)%Q.

Definition mem (w : string) (l : list string) : bool := existsb (String.eqb w) l.

(** [a.intersection(b)] *)
Definition intersection (a b : list string) : list string :=
  List.filter (fun w => mem w b) a.

Definition _calculate_name_similarity (entity_name doc_title : string) : result Q :=
  if Text.is_empty entity_name || Text.is_empty doc_title then Ok 0%Q
  else
    let* ew := _extract_words (Text.lower entity_name) in
    let entity_words := py_set ew in
    let* tw := _extract_words (Text.lower doc_title) in
    let title_words := py_set tw in
    if (length entity_words =? 0)%nat then Ok 0%Q
    else Ok (ratio (length (intersection entity_words title_words))
                   (length entity_words)).

Fixpoint common_prefix (a b : list string) : nat :=
  match a, b with
  | x :: a', y :: b' => if String.eqb x y then S (common_prefix a' b') else 0
  | _, _ => 0
  end.

Definition _calculate_path_similarity (entity_path doc_path : string) : Q :=
  let entity_parts := path_parts entity_path in
  let doc_parts := path_parts doc_path in
  let common_parts := common_prefix entity_parts doc_parts in
  let max_parts := Nat.max (length entity_parts) (length doc_parts) in
  if (0 <? max_parts)%nat then ratio common_parts max_parts else 0%Q.

(** [[p.split(":")[0].strip() for p in params if isinstance(p, str)]] *)
Fixpoint param_names (params : list param) : list string :=
  match params with
  | [] => []
  | PStr p :: ps => Text.strip (hd EmptyString (Text.split_on ":" p)) :: param_names ps
  | POther _ :: ps => param_names ps
  end.

(** The inner loop over the headings, with its [break]. *)
Definition param_in_headings (p : string) (hs : list Heading) : bool :=
  existsb (fun h => Text.contains (Text.lower p) (Text.lower (heading_text h))) hs.

Definition _calculate_signature_similarity (sg : Signature) (doc : DocEntity) : Q :=
  match parameters sg with
  | None | Some [] => 0%Q
  | Some params =>
      let names := param_names params in
      let matches := length (List.filter (fun p => param_in_headings p (headings doc)) names) in
      if (0 <? length names)%nat then ratio matches (length names) else 0%Q
  end.

(** [max(a, b)]: the first argument unless the second is greater. *)
Definition py_max (a b : Q) : Q := if Qlt_le_dec a b then b else a.

Fixpoint heading_loop (entity_words : list string) (hs : list Heading)
    (max_score : Q) : result Q :=
  match hs with
  | [] => Ok max_score
  | h :: hs' =>
      let heading_text := Text.lower (heading_text h) in
      let* hw := _extract_words heading_text in
      let heading_words := py_set hw in
      if negb (length entity_words =? 0)%nat && negb (length heading_words =? 0)%nat
      then heading_loop entity_words hs'
             (py_max max_score
                (ratio (length (intersection entity_words heading_words))
                       (length entity_words)))
      else heading_loop entity_words hs' max_score
  end.

Definition _calculate_heading_similarity (entity_name : string)
    (hs : list Heading) : result Q :=
  let* ew := _extract_words (Text.lower entity_name) in
  heading_loop (py_set ew) hs 0%Q.

Inductive metric : Type := MName | MPath | MSignature | MHeading.

Definition weights (m : metric) : Q :=
  match m with
  | MName => (4 # 10)%Q
  | MPath => (2 # 10)%Q
  | MSignature => (2 # 10)%Q
  | MHeading => (2 # 10)%Q
  end.

(** [sum(score * weights.get(metric, 0) for metric, score in scores)], in
    exact arithmetic; [Binary64.weighted_sum] below is the same sum on
    binary64 values, as the program rounds it. *)
Definition weighted_sum (scores : list (metric * Q)) : Q :=
  fold_left (fun acc ms => (acc + snd ms * weights (fst ms))%Q) scores 0%Q.

Definition confidence_tier (total_score : Q) : Confidence :=
  if Qle_bool (8 # 10)%Q total_score then High
  else if Qle_bool (5 # 10)%Q total_score then Medium
  else Low.

Definition is_function_or_method (k : string) : bool :=
  String.eqb k "function" || String.eqb k "method".

Definition calculate_heuristics_score (entity : CodeEntity) (doc : DocEntity)
    : result (Q * Confidence) :=
  let* name_score :=
    _calculate_name_similarity (name entity)
      (match title doc with Some t => t | None => EmptyString end) in
  let path_score := _calculate_path_similarity (path entity) (doc_path doc) in
  let sig_scores :=
    match signature entity with
    | Some sg =>
        if signature_truthy (signature entity) && is_function_or_method (kind entity)
        then [(MSignature, _calculate_signature_similarity sg doc)]
        else []
    | None => []
    end in
  let* heading_scores :=
    match headings doc with
    | [] => Ok []
    | hs => let* heading_score := _calculate_heading_similarity (name entity) hs in
            Ok [(MHeading, heading_score)]
    end in
  let scores := ([(MName, name_score); (MPath, path_score)] ++ sig_scores ++ heading_scores)%list in
  let total_score := weighted_sum scores in
  Ok (total_score, confidence_tier total_score).

End HeuristicMatcher.

(** ** The weighted sum as the program rounds it *)

(** Line 250 of the source on binary64 values: the weights are the
    literals [0.4] and [0.2] rounded to binary64, each product and each
    partial sum is rounded, and [sum] starts from 0. *)
Module Binary64.
Import PrimFloat.
#[local] Set Warnings "-inexact-float".
Local Open Scope float_scope.

Definition weights (m : HeuristicMatcher.metric) : float :=
  match m with
  | HeuristicMatcher.MName => 0.4
  | HeuristicMatcher.MPath => 0.2
  | HeuristicMatcher.MSignature => 0.2
  | HeuristicMatcher.MHeading => 0.2
  end.

Definition weighted_sum (scores : list (HeuristicMatcher.metric * float)) : float :=
  fold_left (fun acc ms => acc + snd ms * weights (fst ms)) scores 0.

End Binary64.

(** ** hashlib.md5 (RFC 1321) on byte lists *)

Module MD5.
Local Open Scope Z_scope.

Definition wrap (x : Z) : Z := x mod 2 ^ 32.

Definition rotl (x c : Z) : Z :=
  wrap (Z.lor (Z.shiftl x c) (Z.shiftr x (32 - c))).

Definition not32 (x : Z) : Z := Z.lxor x 0xffffffff.

Definition K : list Z :=
    [0xd76aa478; 0xe8c7b756; 0x242070db; 0xc1bdceee;
     0xf57c0faf; 0x4787c62a; 0xa8304613; 0xfd469501;
     0x698098d8; 0x8b44f7af; 0xffff5bb1; 0x895cd7be;
     0x6b901122; 0xfd987193; 0xa679438e; 0x49b40821;
     0xf61e2562; 0xc040b340; 0x265e5a51; 0xe9b6c7aa;
     0xd62f105d; 0x02441453; 0xd8a1e681; 0xe7d3fbc8;
     0x21e1cde6; 0xc33707d6; 0xf4d50d87; 0x455a14ed;
     0xa9e3e905; 0xfcefa3f8; 0x676f02d9; 0x8d2a4c8a;
     0xfffa3942; 0x8771f681; 0x6d9d6122; 0xfde5380c;
     0xa4beea44; 0x4bdecfa9; 0xf6bb4b60; 0xbebfbc70;
     0x289b7ec6; 0xeaa127fa; 0xd4ef3085; 0x04881d05;
     0xd9d4d039; 0xe6db99e5; 0x1fa27cf8; 0xc4ac5665;
     0xf4292244; 0x432aff97; 0xab9423a7; 0xfc93a039;
     0x655b59c3; 0x8f0ccc92; 0xffeff47d; 0x85845dd1;
     0x6fa87e4f; 0xfe2ce6e0; 0xa3014314; 0x4e0811a1;
     0xf7537e82; 0xbd3af235; 0x2ad7d2bb; 0xeb86d391].

Definition shifts : list Z :=
    [7; 12; 17; 22; 7; 12; 17; 22; 7; 12; 17; 22; 7; 12; 17; 22;
     5; 9; 14; 20; 5; 9; 14; 20; 5; 9; 14; 20; 5; 9; 14; 20;
     4; 11; 16; 23; 4; 11; 16; 23; 4; 11; 16; 23; 4; 11; 16; 23;
     6; 10; 15; 21; 6; 10; 15; 21; 6; 10; 15; 21; 6; 10; 15; 21].

(** Padding: a [0x80] byte, zeros up to 56 modulo 64, then the bit length
    as eight little-endian bytes. *)
Definition le_bytes (n : nat) (x : Z) : list Z :=
  map (fun j => (x / 2 ^ (8 * Z.of_nat j)) mod 256) (seq 0 n).

Definition pad (msg : list Z) : list Z :=
  let len := Z.of_nat (length msg) in
  let zeros := Z.to_nat ((55 - len) mod 64) in
  (msg ++ [0x80] ++ repeat 0 zeros ++ le_bytes 8 ((8 * len) mod 2 ^ 64))%list.

Definition le_word (bs : list Z) : Z :=
  fold_right (fun b acc => b + 256 * acc) 0 bs.

Fixpoint words (n : nat) (bs : list Z) : list Z :=
  match n with
  | O => []
  | S n' => le_word (firstn 4 bs) :: words n' (skipn 4 bs)
  end.

Record state : Type := { sa : Z; sb : Z; sc : Z; sd : Z }.

Definition init : state :=
  {| sa := 0x67452301; sb := 0xefcdab89; sc := 0x98badcfe; sd := 0x10325476 |}.

Definition round (M : list Z) (st : state) (i : nat) : state :=
  let '(Build_state A B C D) := st in
  let iz := Z.of_nat i in
  let '(F, g) :=
    if iz <? 16 then (Z.lor (Z.land B C) (Z.land (not32 B) D), iz)
    else if iz <? 32 then (Z.lor (Z.land D B) (Z.land (not32 D) C), (5 * iz + 1) mod 16)
    else if iz <? 48 then (Z.lxor (Z.lxor B C) D, (3 * iz + 5) mod 16)
    else (Z.lxor C (Z.lor B (not32 D)), (7 * iz) mod 16) in
  let F' := wrap (F + A + nth i K 0 + nth (Z.to_nat g) M 0) in
  {| sa := D; sb := wrap (B + rotl F' (nth i shifts 0)); sc := B; sd := C |}.

Definition chunk (st : state) (M : list Z) : state :=
  let r := fold_left (round M) (seq 0 64) st in
  {| sa := wrap (sa st + sa r); sb := wrap (sb st + sb r);
     sc := wrap (sc st + sc r); sd := wrap (sd st + sd r) |}.

Fixpoint chunks (n : nat) (bs : list Z) (st : state) : state :=
  match n with
  | O => st
  | S n' => chunks n' (skipn 64 bs) (chunk st (words 16 (firstn 64 bs)))
  end.

(** [hashlib.md5(data).digest()] *)
Definition digest (msg : list Z) : list Z :=
  let p := pad msg in
  let st := chunks (length p / 64) p init in
  (le_bytes 4 (sa st) ++ le_bytes 4 (sb st) ++ le_bytes 4 (sc st) ++ le_bytes 4 (sd st))%list.

Definition hex_digit (n : Z) : ascii :=
  ascii_of_N (Z.to_N (if n <? 10 then 48 + n else 87 + n)).

(** [hashlib.md5(data).hexdigest()] *)
Definition hexdigest (msg : list Z) : string :=
  string_of_list_ascii
    (flat_map (fun b => [hex_digit (b / 16); hex_digit (b mod 16)]) (digest msg)).

(** [text.encode()] on ASCII text. *)
Definition encode (s : string) : list Z :=
  map (fun c => Z.of_N (N_of_ascii c)) (list_ascii_of_string s).

End MD5.

(** ** EmbeddingGenerator *)

(** [use_openai] is [bool(api_key)]; [requests_sent] counts the calls made
    to the remote service so far (the service may answer the same text
    differently each time). *)
Record EmbeddingGenerator : Type := {
  use_openai : bool;
  embedding_cache : gmap string (list Q);
  requests_sent : nat
}.

Definition _get_cache_key (text : string) : string :=
  MD5.hexdigest (MD5.encode text).

(** [(byte_val / 127.5) - 1.0] *)
Definition normalize_byte (byte_val : Z) : Q :=
  (inject_Z byte_val / (255 # 2) - 1)%Q.

Definition _generate_mock_embedding (text : string) : list Q :=
  let hash_bytes := MD5.digest (MD5.encode text) in
  map (fun i => normalize_byte (nth (i mod length hash_bytes) hash_bytes 0%Z))
      (seq 0 1536).

Definition set_entity_embedding (e : CodeEntity) (v : list Q) : CodeEntity :=
  {| id := id e; project_id := project_id e; kind := kind e; name := name e;
     path := path e; lang := lang e; signature := signature e;
     embedding := Some v |}.

Definition set_doc_embedding (d : DocEntity) (v : list Q) : DocEntity :=
  {| doc_id_of := doc_id_of d; doc_project_id := doc_project_id d;
     doc_path := doc_path d; title := title d; headings := headings d;
     doc_embedding := Some v |}.

Definition render_param (p : param) : string :=
  match p with PStr s => s | POther r => r end.

Definition _entity_to_text (entity : CodeEntity) : string :=
  let parts :=
    ["Name: " +:+ name entity; "Type: " +:+ kind entity;
     "Language: " +:+ lang entity; "Path: " +:+ path entity] in
  let parts :=
    match signature entity with
    | Some sg =>
        match parameters sg with
        | Some params =>
            (parts ++ ["Parameters: " +:+ Text.join ", " (map render_param params)])%list
        | None => parts
        end
    | None => parts
    end in
  Text.join ". " parts.

Definition _doc_to_text (doc : DocEntity) : string :=
  let shown_title :=
    match title doc with
    | Some (String c t) => String c t
    | _ => "Untitled"
    end in
  let parts := ["Title: " +:+ shown_title; "Path: " +:+ doc_path doc] in
  let parts :=
    match headings doc with
    | [] => parts
    | hs => (parts ++ ["Headings: " +:+ Text.join ", " (map heading_text (firstn 5 hs))])%list
    end in
  Text.join ". " parts.

Section Engine.

(** Answer of the remote service to its [n]-th request, for a text: the
    vector of a 200 response, or [None] for any failure (other status,
    time-out, malformed body). *)
Variable openai_embedding : nat -> string -> option (list Q).

(** [sklearn.metrics.pairwise.cosine_similarity] on two single-row
    matrices; it raises on rows of different lengths.  Nothing is assumed
    of the value it returns: the library computes a rounded quotient and
    does not clamp it to [-1, 1]. *)
Variable cosine_similarity : list Q -> list Q -> result Q.

Definition _generate_openai_embedding (n : nat) (text : string) : list Q :=
  match openai_embedding n text with
  | Some v => v
  | None => _generate_mock_embedding text
  end.

Definition generate_embedding (g : EmbeddingGenerator) (text : string)
    : list Q * EmbeddingGenerator :=
  let cache_key := _get_cache_key text in
  match embedding_cache g !! cache_key with
  | Some cached => (cached, g)
  | None =>
      let embedding :=
        if use_openai g then _generate_openai_embedding (requests_sent g) text
        else _generate_mock_embedding text in
      (embedding,
       {| use_openai := use_openai g;
          embedding_cache := <[cache_key := embedding]> (embedding_cache g);
          requests_sent :=
            if use_openai g then S (requests_sent g) else requests_sent g |})
  end.

(** *** MappingEngine *)

(** [_generate_embeddings(entities + docs)]: the items are mutated in
    place, so the caller's lists see the new vectors. *)
Fixpoint embed_entities (g : EmbeddingGenerator) (items : list CodeEntity)
    : list CodeEntity * EmbeddingGenerator :=
  match items with
  | [] => ([], g)
  | item :: rest =>
      if truthy (embedding item) then
        let '(rest', g') := embed_entities g rest in (item :: rest', g')
      else
        let '(v, g1) := generate_embedding g (_entity_to_text item) in
        let '(rest', g') := embed_entities g1 rest in
        (set_entity_embedding item v :: rest', g')
  end.

Fixpoint embed_docs (g : EmbeddingGenerator) (items : list DocEntity)
    : list DocEntity * EmbeddingGenerator :=
  match items with
  | [] => ([], g)
  | item :: rest =>
      if truthy (doc_embedding item) then
        let '(rest', g') := embed_docs g rest in (item :: rest', g')
      else
        let '(v, g1) := generate_embedding g (_doc_to_text item) in
        let '(rest', g') := embed_docs g1 rest in
        (set_doc_embedding item v :: rest', g')
  end.

Definition _generate_embeddings (g : EmbeddingGenerator)
    (entities : list CodeEntity) (docs : list DocEntity)
    : list CodeEntity * list DocEntity * EmbeddingGenerator :=
  let '(entities', g1) := embed_entities g entities in
  let '(docs', g2) := embed_docs g1 docs in
  (entities', docs', g2).

Definition _determine_relation (entity : CodeEntity) (doc : DocEntity)
    (score : Q) : Relation :=
  if Qle_bool (8 # 10) score then Describes
  else if Qle_bool (5 # 10) score then References
  else Mentions.

Definition _find_best_anchor (entity : CodeEntity) (doc : DocEntity)
    : option string :=
  let entity_name_lower := Text.lower (name entity) in
  match List.find
          (fun h => Text.contains entity_name_lower (Text.lower (heading_text h)))
          (headings doc) with
  | Some h => anchor h
  | None => None
  end.

Definition entity_id_pair (entity : CodeEntity) (doc : DocEntity) : string :=
  id entity +:+ ":" +:+ doc_id_of doc.

Definition _calculate_mapping_score (entity : CodeEntity) (doc : DocEntity)
    (request : MapRequest) : result EntityMapping :=
  let* hc :=
    if use_heuristics request
    then HeuristicMatcher.calculate_heuristics_score entity doc
    else Ok (0%Q, Low) in
  let heuristics_score := fst hc in
  let confidence := snd hc in
  let* embedding_score :=
    match embedding entity, doc_embedding doc with
    | Some (x :: ev), Some (y :: dv) =>
        if use_embeddings request then
          let* similarity := cosine_similarity (x :: ev) (y :: dv) in
          Ok ((similarity + 1) / 2)%Q
        else Ok 0%Q
    | _, _ => Ok 0%Q
    end in
  let combined_score :=
    if use_embeddings request && use_heuristics request
    then (heuristics_score * (6 # 10) + embedding_score * (4 # 10))%Q
    else if use_heuristics request then heuristics_score
    else if use_embeddings request then embedding_score
    else 0%Q in
  let relation := _determine_relation entity doc combined_score in
  let anchor := _find_best_anchor entity doc in
  Ok {| mapping_id := entity_id_pair entity doc;
        mapping_project_id := project_id entity;
        entity_id := id entity;
        doc_id := doc_id_of doc;
        mapping_anchor := anchor;
        score := combined_score;
        relation := relation;
        confidence := confidence;
        heuristics_score := heuristics_score;
        embedding_score := embedding_score;
        manual_override := false;
        metadata := (kind entity, lang entity, title doc) |}.

(** The loop over [docs] of [_map_entity_to_docs]: every doc is scored and
    kept when it reaches the threshold. *)
Fixpoint candidate_mappings (entity : CodeEntity) (docs : list DocEntity)
    (request : MapRequest) : result (list EntityMapping) :=
  match docs with
  | [] => Ok []
  | doc :: rest =>
      let* mapping := _calculate_mapping_score entity doc request in
      let* others := candidate_mappings entity rest request in
      Ok (if Qle_bool (min_score_threshold request) (score mapping)
          then mapping :: others else others)
  end.

(** [list.sort(key=lambda x: x.score, reverse=True)]: a stable sort by
    decreasing score. *)
Fixpoint insert_by_score (m : EntityMapping) (l : list EntityMapping)
    : list EntityMapping :=
  match l with
  | [] => [m]
  | x :: l' =>
      if Qlt_le_dec (score m) (score x) then x :: insert_by_score m l'
      else m :: l
  end.

Definition sort_by_score (l : list EntityMapping) : list EntityMapping :=
  fold_right insert_by_score [] l.

(** [l[:n]] for an [int] [n], which may be negative. *)
Definition slice_to {A : Type} (n : Z) (l : list A) : list A :=
  if (n <? 0)%Z then firstn (Z.to_nat (Z.of_nat (length l) + n)) l
  else firstn (Z.to_nat n) l.

Definition _map_entity_to_docs (entity : CodeEntity) (docs : list DocEntity)
    (request : MapRequest) : result (list EntityMapping) :=
  let* candidates := candidate_mappings entity docs request in
  Ok (slice_to (max_mappings_per_entity request) (sort_by_score candidates)).

(** The loop over [entities] of [generate_mappings], with its [break]. *)
Fixpoint entity_loop (entities : list CodeEntity) (docs : list DocEntity)
    (request : MapRequest) (mappings : list EntityMapping)
    : result (list EntityMapping) :=
  match entities with
  | [] => Ok mappings
  | entity :: rest =>
      let* entity_mappings := _map_entity_to_docs entity docs request in
      let mappings := (mappings ++ entity_mappings)%list in
      if (max_mappings_per_entity request <=? Z.of_nat (length entity_mappings))%Z
      then Ok mappings
      else entity_loop rest docs request mappings
  end.

Definition generate_mappings (g : EmbeddingGenerator)
    (entities : list CodeEntity) (docs : list DocEntity) (request : MapRequest)
    : result (list EntityMapping) * EmbeddingGenerator :=
  let '(entities', docs', g') :=
    if use_embeddings request then _generate_embeddings g entities docs
    else (entities, docs, g) in
  (entity_loop entities' docs' request [], g').

(** *** MapWorker *)

(** The body of [handle_map_request] once the request is decoded and the
    entities and docs are loaded: the published result, or nothing when an
    exception reached the handler's [except] clause (it is only logged). *)
Definition process_request (g : EmbeddingGenerator)
    (entities : list CodeEntity) (docs : list DocEntity) (request : MapRequest)
    : option MapResult * EmbeddingGenerator :=
  match generate_mappings g entities docs request with
  | (Ok ms, g') =>
      (Some {| res_project_id := req_project_id request;
               mappings := ms;
               success := true;
               entities_processed := length entities;
               docs_processed := length docs;
               mappings_created := length ms;
               res_request_id := request_id request |}, g')
  | (Raise _, g') => (None, g')
  end.

(** [str(i)] for the indices of [range(10)]. *)
Definition digit (i : nat) : string :=
  String (ascii_of_nat (48 + i)) EmptyString.

(** The stand-in data of [_load_entities] and [_load_docs]. *)
Definition _load_entities (request : MapRequest) : list CodeEntity :=
  map (fun i =>
         {| id := "entity_" +:+ digit i;
            project_id := req_project_id request;
            kind := "function";
            name := "exampleFunction" +:+ digit i;
            path := "/src/example" +:+ digit i +:+ ".py";
            lang := "python";
            signature := None;
            embedding := None |})
      (seq 0 10).

Definition _load_docs (request : MapRequest) : list DocEntity :=
  map (fun i =>
         {| doc_id_of := "doc_" +:+ digit i;
            doc_project_id := req_project_id request;
            doc_path := "/docs/example" +:+ digit i +:+ ".md";
            title := Some ("Example Documentation " +:+ digit i);
            headings :=
              [{| text := Some ("Example Function " +:+ digit i);
                  anchor := Some ("example-function-" +:+ digit i) |}];
            doc_embedding := None |})
      (seq 0 10).

(** [decoded] is the request read from the message, or [None] when
    decoding it or building the [MapRequest] raised. *)
Definition handle_map_request (g : EmbeddingGenerator)
    (decoded : option MapRequest) : option MapResult * EmbeddingGenerator :=
  match decoded with
  | Some request =>
      process_request g (_load_entities request) (_load_docs request) request
  | None => (None, g)
  end.

End Engine.

(** ** Notions used by the statements *)

(** An entity or a doc with its vector forgotten: what two runs that differ
    only in embedding vectors have in common. *)
Definition without_embedding (e : CodeEntity) : CodeEntity :=
  {| id := id e; project_id := project_id e; kind := kind e; name := name e;
     path := path e; lang := lang e; signature := signature e;
     embedding := None |}.

Definition doc_without_embedding (d : DocEntity) : DocEntity :=
  {| doc_id_of := doc_id_of d; doc_project_id := doc_project_id d;
     doc_path := doc_path d; title := title d; headings := headings d;
     doc_embedding := None |}.


Definition by_score_desc (a b : EntityMapping) : Prop := (score b <= score a)%Q.

Definition in_unit_interval (q : Q) : Prop := (0 <= q /\ q <= 1)%Q.

(** Every maximal run of [\w] characters keeps at most two characters once
    the non-alphanumeric ones are removed; [kept] counts those of the run
    being read. *)
Fixpoint short_runs (kept : nat) (s : string) : bool :=
  match s with
  | EmptyString => (kept <=? 2)%nat
  | String c s' =>
      if Text.is_word c
      then short_runs (if Text.is_alnum c then S kept else kept) s'
      else (kept <=? 2)%nat && short_runs 0 s'
  end.

(** A [\w] character, a separator ([_] or [-]) and a [\w] character in a
    row somewhere in the text; without one the third pattern finds no
    match. *)
Fixpoint has_sep_triple (s : string) : bool :=
  match s with
  | String a s1 =>
      match s1 with
      | String b (String c _) =>
          (Text.is_word a && Text.is_sep b && Text.is_word c) || has_sep_triple s1
      | _ => false
      end
  | EmptyString => false
  end.

Definition fresh_generator (with_provider : bool) : EmbeddingGenerator :=
  {| use_openai := with_provider; embedding_cache := ∅; requests_sent := 0 |}.

(** A run of the generator: the texts it is asked to embed, in order. *)
Definition embed_texts (openai_embedding : nat -> string -> option (list Q))
    (g : EmbeddingGenerator) (texts : list string) : EmbeddingGenerator :=
  fold_left (fun g t => snd (generate_embedding openai_embedding g t)) texts g.

(** What one scored pair looks like, whichever entity and doc it came from. *)
Record pair_facts (cosine_similarity : list Q -> list Q -> result Q)
    (request : MapRequest) (m : EntityMapping) : Prop := {
  pf_confidence : confidence m = HeuristicMatcher.confidence_tier (heuristics_score m);
  pf_relation :
    relation m =
      if Qle_bool (8 # 10)%Q (score m) then Describes
      else if Qle_bool (5 # 10)%Q (score m) then References else Mentions;
  pf_heuristics : in_unit_interval (heuristics_score m);
  pf_no_heuristics : use_heuristics request = false -> confidence m = Low;
  pf_id : mapping_id m = entity_id m +:+ ":" +:+ doc_id m;
  pf_manual : manual_override m = false;
  pf_embedding :
    embedding_score m = 0%Q \/
    exists u v c, cosine_similarity u v = Ok c /\ embedding_score m = ((c + 1) / 2)%Q;
  pf_blend :
    score m =
      if use_embeddings request && use_heuristics request
      then (heuristics_score m * (6 # 10) + embedding_score m * (4 # 10))%Q
      else if use_heuristics request then heuristics_score m
      else if use_embeddings request then embedding_score m
      else 0%Q
}.

(** Priming leaves everything but the vector as it was, and leaves an
    item that already has a vector untouched. *)
Definition primed_from (e e' : CodeEntity) : Prop :=
  without_embedding e' = without_embedding e /\
  (truthy (embedding e) = true -> e' = e).

Definition doc_primed_from (d d' : DocEntity) : Prop :=
  doc_without_embedding d' = doc_without_embedding d /\
  (truthy (doc_embedding d) = true -> d' = d).

(** Length of a found word once cleaned. *)
Definition kept_length (w : string) : nat :=
  String.length (Text.lower (Text.filter_string Text.is_alnum w)).

(** Every cached vector is the fallback vector of the texts that have its
    key: what the cache of a generator without service looks like. *)
Definition cache_of_fallbacks (g : EmbeddingGenerator) : Prop :=
  forall t v, embedding_cache g !! _get_cache_key t = Some v ->
              v = _generate_mock_embedding t.

(** Every character of a string satisfies a test. *)
Fixpoint all_chars (p : ascii -> bool) (s : string) : bool :=
  match s with
  | EmptyString => true
  | String c s' => p c && all_chars p s'
  end.

(** A small letter or a digit: what cleaned words are made of. *)
Definition is_lower_alnum (c : ascii) : bool := Text.is_lower c || Text.is_digit c.

(** The texts on which name similarity fails: both are non-empty and one of
    them has a separator between two word characters. *)
Definition name_similarity_fails (entity_name doc_title : string) : bool :=
  negb (Text.is_empty entity_name) && negb (Text.is_empty doc_title)
  && (has_sep_triple entity_name || has_sep_triple doc_title).

(** The same for heading similarity: the name, or the text of a heading. *)
Definition heading_similarity_fails (entity_name : string) (hs : list Heading) : bool :=
  has_sep_triple entity_name || existsb (fun h => has_sep_triple (heading_text h)) hs.

(** The pairs on which the heuristic score fails. *)
Definition heuristics_fail (entity : CodeEntity) (doc : DocEntity) : bool :=
  name_similarity_fails (name entity)
    (match title doc with Some t => t | None => EmptyString end)
  || match headings doc with
     | [] => false
     | hs => heading_similarity_fails (name entity) hs
     end.

(** A heading whose text contains the entity name, letter case aside: the
    test of [_find_best_anchor]. *)
Definition heading_mentions (entity : CodeEntity) (h : Heading) : bool :=
  Text.contains (Text.lower (name entity)) (Text.lower (heading_text h)).

(** The items of a list that have no vector yet: those [_generate_embeddings]
    asks the generator about. *)
Definition vectorless (es : list CodeEntity) : nat :=
  length (List.filter (fun e => negb (truthy (embedding e))) es).

Definition vectorless_docs (ds : list DocEntity) : nat :=
  length (List.filter (fun d => negb (truthy (doc_embedding d))) ds).

(** The heuristic score that every pair of the stand-in data gets:
    0 for the name, 1/3 for the path (the root [/] is the only common
    part), 0 for the heading, no signature. *)
Definition stand_in_pair_scores (e : CodeEntity) (d : DocEntity) : bool :=
  match HeuristicMatcher.calculate_heuristics_score e d with
  | Ok (h, Low) => Qeq_bool h (1 # 15)
  | _ => false
  end.

(** *** Sample data *)

Module Sample.

Definition request (heur emb : bool) (cap : Z) : MapRequest :=
  {| req_project_id := "demo"; use_embeddings := emb; use_heuristics := heur;
     min_score_threshold := (3 # 10)%Q; max_mappings_per_entity := cap;
     request_id := "r1" |}.

(** The defaults of [MapRequest], embeddings switched off. *)
Definition heuristics_only : MapRequest := request true false 5.

Definition entity (ident nm pth : string) : CodeEntity :=
  {| id := ident; project_id := "demo"; kind := "function"; name := nm;
     path := pth; lang := "python"; signature := None; embedding := None |}.

Definition doc (ident ttl pth : string) (hs : list Heading) : DocEntity :=
  {| doc_id_of := ident; doc_project_id := "demo"; doc_path := pth;
     title := Some ttl; headings := hs; doc_embedding := None |}.

Definition getUser : CodeEntity := entity "e1" "getUser" "src/api/users.py".

Definition guide : DocEntity :=
  doc "d1" "Get User Guide" "docs/guide.md"
      [{| text := Some "Overview"; anchor := Some "overview" |}].

Definition parser : CodeEntity := entity "parser" "parser" "src/parser.py".
Definition lexer : CodeEntity := entity "lexer" "lexer" "src/lexer.py".
Definition do_it : CodeEntity := entity "do_it" "do_it" "src/jobs.py".

Definition parser_notes (i : nat) : DocEntity :=
  doc ("notes_" +:+ digit i) "Parser notes" "docs/parser.md" [].

Definition lexer_notes : DocEntity := doc "lexer_notes" "Lexer notes" "docs/lexer.md" [].

Definition set_up_guide : DocEntity := doc "setup" "Set-up guide" "docs/setup.md" [].

(** Five docs about the parser, then one about the lexer. *)
Definition library : list DocEntity :=
  (map parser_notes (seq 1 5) ++ [lexer_notes])%list.

(** Stand-ins for the two parameters: a service that never answers and a
    similarity that is 1 on equal vectors, 0 otherwise. *)
Definition no_service (n : nat) (t : string) : option (list Q) := None.

Definition same_vector (u v : list Q) : bool :=
  (length u =? length v)%nat && forallb (fun p => Qeq_bool (fst p) (snd p)) (combine u v).

Definition crude_cosine (u v : list Q) : result Q :=
  if (length u =? length v)%nat
  then Ok (if same_vector u v then 1%Q else 0%Q)
  else Raise ValueError.

Definition east : list Q := [1%Q; 0%Q].
Definition north : list Q := [0%Q; 1%Q].



(** The defaults of [MapRequest], and heuristics switched off. *)
Definition blended : MapRequest := request true true 5.
Definition embeddings_only : MapRequest := request false true 5.

(** One doc whose title the third pattern matches, between two that score
    without trouble. *)
Definition mixed_docs : list DocEntity := [parser_notes 1; set_up_guide; lexer_notes].

Definition id_heading : Heading := {| text := Some "id"; anchor := Some "id" |}.
Definition do_it_heading : Heading := {| text := Some "do_it"; anchor := Some "do_it" |}.

Definition heading (t a : string) : Heading := {| text := Some t; anchor := Some a |}.

(** Three docs the parser scores 0.4, 0.6 and 0.5 against. *)
Definition parser_intro : DocEntity := doc "intro" "Parser" "docs/a.md" [].
Definition parser_source : DocEntity := doc "source" "Parser" "src/parser.py" [].
Definition parser_guide : DocEntity := doc "guide" "Parser guide" "src/x.md" [].
Definition ranked_docs : list DocEntity := [parser_intro; parser_source; parser_guide].

(** A doc with six headings, and one that differs from it in the sixth
    heading, the anchors and the id only. *)
Definition six_headings (last : string) (a : string) : list Heading :=
  [heading "Install" a; heading "Configure" a; heading "Run" a;
   heading "Parser options" a; heading "Errors" a; heading last a].
Definition manual : DocEntity := doc "manual" "Manual" "docs/manual.md" (six_headings "Index" "x").
Definition manual_copy : DocEntity := doc "copy" "Manual" "docs/manual.md" (six_headings "Credits" "y").

End Sample.

(** * Properties *)

(** ** The library models on known values *)

Section ModelChecks.
Local Open Scope Q_scope.

(** RFC 1321, appendix A.5. *)
Example md5_empty : MD5.hexdigest (MD5.encode "") = "d41d8cd98f00b204e9800998ecf8427e".
Proof. vm_compute. reflexivity. Qed.

Example md5_abc : MD5.hexdigest (MD5.encode "abc") = "900150983cd24fb0d6963f7d28e17f72".
Proof. vm_compute. reflexivity. Qed.

Example md5_alphabet :
  MD5.hexdigest (MD5.encode "abcdefghijklmnopqrstuvwxyz")
  = "c3fcd3d76192e4007dfb496cca67e13b".
Proof. vm_compute. reflexivity. Qed.

Example md5_two_blocks :
  MD5.hexdigest
    (MD5.encode "12345678901234567890123456789012345678901234567890123456789012345678901234567890")
  = "57edf4a22be3c955ac49da2e2107b67a".
Proof. vm_compute. reflexivity. Qed.

Example findall_word : Re.findall Re.match_word 0 "a_b_c d-e" = ["a_b_c"; "d"; "e"].
Proof. reflexivity. Qed.

Example findall_camel : Re.findall Re.match_camel 0 "HTTPServer getUser ABc"
                        = ["HTTP"; "Server"; "User"; "A"; "Bc"].
Proof. reflexivity. Qed.

Example findall_snake : Re.findall Re.match_snake 0 "a_b_c d-e ab_-cd x--y a__b"
                        = [("a_b", "c"); ("d", "e"); ("ab_", "cd"); ("a_", "b")].
Proof. reflexivity. Qed.

Example extract_words_mixed_case :
  _extract_words "HTTPServer x" = Ok ["httpserver"; "http"; "server"].
Proof. reflexivity. Qed.

Example parts_relative : path_parts "a/./b//c.py/" = ["a"; "b"; "c.py"].
Proof. reflexivity. Qed.

Example parts_rooted :
  path_parts "/a/b" = ["/"; "a"; "b"] /\ path_parts "//a" = ["//"; "a"] /\
  path_parts "///a/.." = ["/"; "a"; ".."] /\ path_parts "." = [].
Proof. repeat split. Qed.

Example strip_and_split :
  Text.strip (hd "" (Text.split_on ":" "  user_id : int")) = "user_id".
Proof. reflexivity. Qed.

Example fallback_first_components :
  firstn 3 (_generate_mock_embedding "x") = [59 # 255; 169 # 255; 201 # 255].
Proof. vm_compute. reflexivity. Qed.

End ModelChecks.

(** ** Exact sums and binary64 sums *)

Section Binary64Checks.
Import PrimFloat HeuristicMatcher.
#[local] Set Warnings "-inexact-float".
Local Open Scope Q_scope.

(** Where the exact weighted sum and the rounded one part.  For a name and
    a path similarity of 1 the program obtains 0.6000000000000001, above the
    6/10 of the model and well below the cut of 0.8.  With all four signals
    at 1 both sums are 1.  For similarities of 1, 1/2, 1 and 1/2 the exact
    sum is 4/5 and the program's 0.7999999999999999: on a sum that falls on
    a cut the two sides can give different tiers. *)
Example binary64_sums :
  (weighted_sum [(MName, 1); (MPath, 1)] == 6 # 10 /\
   (0.6 <? Binary64.weighted_sum [(MName, 1); (MPath, 1)])%float = true /\
   (Binary64.weighted_sum [(MName, 1); (MPath, 1)] <? 0.8)%float = true) /\
  (weighted_sum [(MName, 1); (MPath, 1); (MSignature, 1); (MHeading, 1)] == 1 /\
   (Binary64.weighted_sum [(MName, 1); (MPath, 1); (MSignature, 1); (MHeading, 1)]
    =? 1)%float = true) /\
  (weighted_sum [(MName, 1); (MPath, 1 # 2); (MSignature, 1); (MHeading, 1 # 2)]
   == 8 # 10 /\
   (Binary64.weighted_sum [(MName, 1); (MPath, 0.5); (MSignature, 1); (MHeading, 0.5)]
    <? 0.8)%float = true).
Proof. repeat split; vm_compute; reflexivity. Qed.

End Binary64Checks.

(** ** Results *)

Lemma bind_ok {A B : Type} (c : result A) (k : A -> result B) (b : B) :
  bind c k = Ok b -> exists a, c = Ok a /\ k a = Ok b.
Proof.
  destruct c as [a|e]; simpl; intros H; [eauto | discriminate].
Qed.

Lemma bind_raise {A B : Type} (c : result A) (k : A -> result B) (e : exn) :
  c = Raise e -> bind c k = Raise e.
Proof. intros ->. reflexivity. Qed.

Ltac bind_inv H :=
  let a := fresh "a" in
  let Ha := fresh "Ha" in
  apply bind_ok in H; destruct H as (a & Ha & H).

(** ** Scores in the unit interval *)

Section Ranges.
Import HeuristicMatcher.
Local Open Scope Q_scope.

Lemma unit_zero : in_unit_interval 0.
Proof. split; [apply Qle_refl | discriminate]. Qed.

Lemma ratio_unit (a b : nat) :
  (a <= b)%nat -> (0 < b)%nat -> in_unit_interval (ratio a b).
Proof.
  intros Hab Hb. unfold in_unit_interval, ratio, Qle; simpl.
  assert (Hp : Z.pos (Pos.of_nat b) = Z.of_nat b).
  { rewrite <- positive_nat_Z, Nat2Pos.id; [reflexivity | lia]. }
  rewrite Hp. lia.
Qed.

Lemma intersection_length (a b : list string) :
  (length (intersection a b) <= length a)%nat.
Proof.
  unfold intersection. induction a as [|x a IH]; simpl; [lia|].
  destruct (mem x b); simpl; lia.
Qed.

Lemma common_prefix_le (a b : list string) :
  (common_prefix a b <= Nat.max (length a) (length b))%nat.
Proof.
  revert b. induction a as [|x a IH]; intros [|y b]; simpl; try lia.
  destruct (String.eqb x y); [specialize (IH b)|]; lia.
Qed.

Lemma overlap_unit (ew tw : list string) :
  (length ew =? 0)%nat = false ->
  in_unit_interval (ratio (length (intersection ew tw)) (length ew)).
Proof.
  intros H. apply Nat.eqb_neq in H.
  apply ratio_unit; [apply intersection_length | lia].
Qed.

Lemma name_similarity_unit (n t : string) (q : Q) :
  _calculate_name_similarity n t = Ok q -> in_unit_interval q.
Proof.
  unfold _calculate_name_similarity.
  destruct (Text.is_empty n || Text.is_empty t).
  - intros [= <-]. apply unit_zero.
  - intros H. bind_inv H. bind_inv H.
    destruct (length (py_set a) =? 0)%nat eqn:E; injection H as <-.
    + apply unit_zero.
    + apply overlap_unit, E.
Qed.

Lemma path_similarity_unit (p1 p2 : string) :
  in_unit_interval (_calculate_path_similarity p1 p2).
Proof.
  unfold _calculate_path_similarity.
  destruct (0 <? _)%nat eqn:E; [|apply unit_zero].
  apply Nat.ltb_lt in E. apply ratio_unit; [apply common_prefix_le | exact E].
Qed.

Lemma filter_length_bound {A : Type} (f : A -> bool) (l : list A) :
  (length (List.filter f l) <= length l)%nat.
Proof. induction l as [|x l IH]; simpl; [lia|]. destruct (f x); simpl; lia. Qed.

Lemma signature_similarity_unit (sg : Signature) (d : DocEntity) :
  in_unit_interval (_calculate_signature_similarity sg d).
Proof.
  unfold _calculate_signature_similarity.
  destruct (parameters sg) as [[|p ps]|]; try apply unit_zero.
  destruct (0 <? _)%nat eqn:E; [|apply unit_zero].
  apply Nat.ltb_lt in E. apply ratio_unit; [apply filter_length_bound | exact E].
Qed.

Lemma py_max_unit (a b : Q) :
  in_unit_interval a -> in_unit_interval b -> in_unit_interval (py_max a b).
Proof. unfold py_max. destruct (Qlt_le_dec a b); auto. Qed.

Lemma heading_loop_unit (ew : list string) (hs : list Heading) (acc q : Q) :
  in_unit_interval acc -> heading_loop ew hs acc = Ok q -> in_unit_interval q.
Proof.
  revert acc. induction hs as [|h hs IH]; simpl; intros acc Hacc H.
  - injection H as <-. exact Hacc.
  - bind_inv H.
    destruct (length ew =? 0)%nat eqn:E; simpl in H; [eauto|].
    destruct (length (py_set a) =? 0)%nat; simpl in H; [eauto|].
    eapply IH; [|exact H]. apply py_max_unit; [exact Hacc|].
    apply overlap_unit, E.
Qed.

Lemma heading_similarity_unit (n : string) (hs : list Heading) (q : Q) :
  _calculate_heading_similarity n hs = Ok q -> in_unit_interval q.
Proof.
  unfold _calculate_heading_similarity. intros H. bind_inv H.
  eapply heading_loop_unit; [apply unit_zero | exact H].
Qed.

End Ranges.

Section HeuristicScore.
Import HeuristicMatcher.
Local Open Scope Q_scope.

(** The four weights add up to one, so a weighted sum of signals of the
    unit interval stays in it, whichever optional signals are present. *)
Lemma weighted_sum_unit (n p : Q) (sg hd : list (metric * Q)) :
  in_unit_interval n -> in_unit_interval p ->
  (sg = [] \/ exists s, sg = [(MSignature, s)] /\ in_unit_interval s) ->
  (hd = [] \/ exists h, hd = [(MHeading, h)] /\ in_unit_interval h) ->
  in_unit_interval (weighted_sum ([(MName, n); (MPath, p)] ++ sg ++ hd)%list).
Proof.
  unfold in_unit_interval.
  intros [Hn0 Hn1] [Hp0 Hp1] [->|(s & -> & Hs0 & Hs1)] [->|(h & -> & Hh0 & Hh1)];
    unfold weighted_sum; simpl; split; lra.
Qed.

Lemma heuristics_score_unit (e : CodeEntity) (d : DocEntity) (hc : Q * Confidence) :
  calculate_heuristics_score e d = Ok hc ->
  in_unit_interval (fst hc) /\ snd hc = confidence_tier (fst hc).
Proof.
  unfold calculate_heuristics_score. intros H.
  apply bind_ok in H. destruct H as (n & Hn & H).
  apply bind_ok in H. destruct H as (hd & Hhd & H).
  injection H as <-. simpl. split; [|reflexivity].
  apply weighted_sum_unit.
  - eapply name_similarity_unit, Hn.
  - apply path_similarity_unit.
  - destruct (signature e) as [sg|]; [|left; reflexivity].
    destruct (_ && _); [right|left; reflexivity].
    eexists; split; [reflexivity | apply signature_similarity_unit].
  - destruct (headings d) as [|h hs]; [injection Hhd as <-; left; reflexivity|].
    bind_inv Hhd. injection Hhd as <-. right.
    eexists; split; [reflexivity | eapply heading_similarity_unit, Ha].
Qed.

End HeuristicScore.

(** ** The mapping engine *)

Section EngineProperties.

Variable openai_embedding : nat -> string -> option (list Q).
Variable cosine_similarity : list Q -> list Q -> result Q.

Local Abbreviation score_pair := (_calculate_mapping_score cosine_similarity).
Local Abbreviation map_entity := (_map_entity_to_docs cosine_similarity).
Local Abbreviation run := (generate_mappings openai_embedding cosine_similarity).

Local Open Scope Q_scope.

Lemma score_pair_facts (e : CodeEntity) (d : DocEntity) (request : MapRequest)
    (m : EntityMapping) :
  score_pair e d request = Ok m -> pair_facts cosine_similarity request m.
Proof.
  unfold _calculate_mapping_score. intros H.
  apply bind_ok in H. destruct H as (hc & Hhc & H).
  apply bind_ok in H. destruct H as (es & Hes & H).
  injection H as <-.
  assert (Hh : in_unit_interval (fst hc) /\
               snd hc = HeuristicMatcher.confidence_tier (fst hc)).
  { destruct (use_heuristics request).
    - apply heuristics_score_unit with (e := e) (d := d), Hhc.
    - injection Hhc as <-. split; [apply unit_zero | reflexivity]. }
  destruct Hh as [Hunit Htier].
  constructor; simpl; auto.
  - intros Hoff. rewrite Hoff in Hhc. injection Hhc as <-. reflexivity.
  - destruct (embedding e) as [[|x u]|]; try (injection Hes as <-; left; reflexivity).
    destruct (doc_embedding d) as [[|y v]|]; try (injection Hes as <-; left; reflexivity).
    destruct (use_embeddings request); [|injection Hes as <-; left; reflexivity].
    apply bind_ok in Hes. destruct Hes as (c & Hc & Hes). injection Hes as <-.
    right. exists (x :: u), (y :: v), c. split; [exact Hc | reflexivity].
Qed.

(** *** Where returned mappings come from *)

Lemma candidate_mappings_in (e : CodeEntity) (docs : list DocEntity)
    (request : MapRequest) (cs : list EntityMapping) (m : EntityMapping) :
  candidate_mappings cosine_similarity e docs request = Ok cs -> In m cs ->
  exists d, In d docs /\ score_pair e d request = Ok m /\
            min_score_threshold request <= score m.
Proof.
  revert cs. induction docs as [|d docs IH]; simpl; intros cs H Hin.
  - injection H as <-. destruct Hin.
  - apply bind_ok in H. destruct H as (m0 & Hm0 & H).
    apply bind_ok in H. destruct H as (rest & Hrest & H). injection H as <-.
    destruct (Qle_bool (min_score_threshold request) (score m0)) eqn:E.
    + destruct Hin as [<-|Hin].
      * exists d. repeat split; auto. apply Qle_bool_iff, E.
      * destruct (IH rest Hrest Hin) as (d' & ? & ? & ?). exists d'. auto.
    + destruct (IH rest Hrest Hin) as (d' & ? & ? & ?). exists d'. auto.
Qed.

Lemma insert_by_score_in (m x : EntityMapping) (l : list EntityMapping) :
  In x (insert_by_score m l) <-> x = m \/ In x l.
Proof.
  induction l as [|y l IH]; simpl.
  - intuition.
  - destruct (Qlt_le_dec (score m) (score y)); simpl; rewrite ?IH; intuition.
Qed.

Lemma sort_by_score_in (x : EntityMapping) (l : list EntityMapping) :
  In x (sort_by_score l) <-> In x l.
Proof.
  induction l as [|y l IH]; simpl; [tauto|].
  rewrite insert_by_score_in, IH. intuition.
Qed.

Lemma slice_to_in {A : Type} (n : Z) (l : list A) (x : A) :
  In x (slice_to n l) -> In x l.
Proof.
  assert (H : forall k, In x (firstn k l) -> In x l).
  { intros k Hx. rewrite <- (firstn_skipn k l). apply in_or_app. auto. }
  unfold slice_to. destruct (n <? 0)%Z; apply H.
Qed.

Lemma map_entity_in (e : CodeEntity) (docs : list DocEntity)
    (request : MapRequest) (ms : list EntityMapping) (m : EntityMapping) :
  map_entity e docs request = Ok ms -> In m ms ->
  exists d, In d docs /\ score_pair e d request = Ok m /\
            min_score_threshold request <= score m.
Proof.
  unfold _map_entity_to_docs. intros H Hin.
  apply bind_ok in H. destruct H as (cs & Hcs & H). injection H as <-.
  apply slice_to_in in Hin. apply (proj1 (sort_by_score_in m cs)) in Hin.
  exact (candidate_mappings_in e docs request cs m Hcs Hin).
Qed.

Lemma entity_loop_in (es : list CodeEntity) (docs : list DocEntity)
    (request : MapRequest) (acc ms : list EntityMapping) (m : EntityMapping) :
  entity_loop cosine_similarity es docs request acc = Ok ms -> In m ms ->
  In m acc \/
  exists e per_entity, In e es /\ map_entity e docs request = Ok per_entity /\
                       In m per_entity.
Proof.
  revert acc. induction es as [|e es IH]; simpl; intros acc H Hin.
  - injection H as <-. auto.
  - apply bind_ok in H. destruct H as (per & Hper & H).
    assert (Hacc : In m (acc ++ per)%list ->
      In m acc \/ exists e0 per0, (e = e0 \/ In e0 es) /\
        map_entity e0 docs request = Ok per0 /\ In m per0).
    { intros Hm. apply in_app_or in Hm. destruct Hm; [auto|].
      right. exists e, per. auto. }
    destruct (_ <=? _)%Z.
    + injection H as <-. auto.
    + destruct (IH _ H Hin) as [Hm|(e0 & per0 & ? & ? & ?)]; [auto|].
      right. exists e0, per0. auto.
Qed.

Lemma run_in (g : EmbeddingGenerator) (es : list CodeEntity)
    (docs : list DocEntity) (request : MapRequest)
    (ms : list EntityMapping) (m : EntityMapping) :
  fst (run g es docs request) = Ok ms -> In m ms ->
  exists e d, score_pair e d request = Ok m /\
              min_score_threshold request <= score m.
Proof.
  unfold generate_mappings.
  destruct (if use_embeddings request then _ else _) as [[es' docs'] g'].
  simpl. intros H Hin.
  destruct (entity_loop_in es' docs' request [] ms m H Hin)
    as [[]|(e & per & _ & Hper & Hm)].
  destruct (map_entity_in e docs' request per m Hper Hm) as (d & _ & Hd & Hthr).
  exists e, d. auto.
Qed.

Lemma run_pair_facts (g : EmbeddingGenerator) (es : list CodeEntity)
    (docs : list DocEntity) (request : MapRequest)
    (ms : list EntityMapping) (m : EntityMapping) :
  fst (run g es docs request) = Ok ms -> In m ms ->
  pair_facts cosine_similarity request m /\ min_score_threshold request <= score m.
Proof.
  intros H Hin. destruct (run_in g es docs request ms m H Hin) as (e & d & Hm & Hthr).
  split; [exact (score_pair_facts e d request m Hm) | exact Hthr].
Qed.

(** *** Relation type *)

Lemma relation_cases (q : Q) (r : Relation) :
  r = (if Qle_bool (8 # 10) q then Describes
       else if Qle_bool (5 # 10) q then References else Mentions) ->
  (r = Describes <-> 8 # 10 <= q) /\
  (r = References <-> 5 # 10 <= q /\ q < 8 # 10) /\
  (r = Mentions <-> q < 5 # 10).
Proof.
  intros ->.
  destruct (Qle_bool (8 # 10) q) eqn:E8; [|destruct (Qle_bool (5 # 10) q) eqn:E5].
  - apply Qle_bool_iff in E8.
    repeat split; auto; try discriminate; intros; exfalso; lra.
  - apply Qle_bool_iff in E5.
    assert (~ 8 # 10 <= q) by (rewrite <- Qle_bool_iff, E8; discriminate).
    repeat split; auto; try discriminate; try lra; intros; exfalso; lra.
  - assert (~ 8 # 10 <= q) by (rewrite <- Qle_bool_iff, E8; discriminate).
    assert (~ 5 # 10 <= q) by (rewrite <- Qle_bool_iff, E5; discriminate).
    repeat split; auto; try discriminate; try lra; intros; exfalso; lra.
Qed.

(** C5. Every mapping returned by [generate_mappings] has relation
    [describes] exactly when its blended score is at least 0.8,
    [references] exactly when the score is at least 0.5 and below 0.8, and
    [mentions] exactly when it is below 0.5. *)
Theorem relation_follows_score (g : EmbeddingGenerator) (es : list CodeEntity)
    (docs : list DocEntity) (request : MapRequest)
    (ms : list EntityMapping) (m : EntityMapping) :
  fst (run g es docs request) = Ok ms -> In m ms ->
  (relation m = Describes <-> 8 # 10 <= score m) /\
  (relation m = References <-> 5 # 10 <= score m /\ score m < 8 # 10) /\
  (relation m = Mentions <-> score m < 5 # 10).
Proof.
  intros H Hin. destruct (run_pair_facts g es docs request ms m H Hin) as [F _].
  apply relation_cases, (pf_relation _ _ _ F).
Qed.

(** *** Confidence tier *)

(** C9. With [use_heuristics] off, every mapping returned by
    [generate_mappings] has confidence [low], whatever its embedding score
    and blended score are. *)
Theorem confidence_low_without_heuristics (g : EmbeddingGenerator)
    (es : list CodeEntity) (docs : list DocEntity) (request : MapRequest)
    (ms : list EntityMapping) (m : EntityMapping) :
  use_heuristics request = false ->
  fst (run g es docs request) = Ok ms -> In m ms ->
  confidence m = Low.
Proof.
  intros Hoff H Hin.
  destruct (run_pair_facts g es docs request ms m H Hin) as [F _].
  exact (pf_no_heuristics _ _ _ F Hoff).
Qed.

Lemma tier_cases (h : Q) (c : Confidence) :
  c = HeuristicMatcher.confidence_tier h ->
  (c = High <-> 8 # 10 <= h) /\
  (c = Medium <-> 5 # 10 <= h /\ h < 8 # 10) /\
  (c = Low <-> h < 5 # 10).
Proof.
  intros ->. unfold HeuristicMatcher.confidence_tier.
  destruct (Qle_bool (8 # 10) h) eqn:E8; [|destruct (Qle_bool (5 # 10) h) eqn:E5].
  - apply Qle_bool_iff in E8.
    repeat split; auto; try discriminate; intros; exfalso; lra.
  - apply Qle_bool_iff in E5.
    assert (~ 8 # 10 <= h) by (rewrite <- Qle_bool_iff, E8; discriminate).
    repeat split; auto; try discriminate; try lra; intros; exfalso; lra.
  - assert (~ 8 # 10 <= h) by (rewrite <- Qle_bool_iff, E8; discriminate).
    assert (~ 5 # 10 <= h) by (rewrite <- Qle_bool_iff, E5; discriminate).
    repeat split; auto; try discriminate; try lra; intros; exfalso; lra.
Qed.

(** C8. The confidence of a scored pair is read off its heuristic score
    alone: it is [high] exactly when [heuristics_score] is at least 0.8,
    [medium] exactly when it is at least 0.5 and below 0.8, and [low]
    exactly when it is below 0.5.  Two runs that differ only in the
    embedding vectors of the entity and the doc, and in the similarity
    computed from them, give the pair the same heuristic score and the same
    confidence. *)
Theorem confidence_ignores_embeddings
    (cosine' : list Q -> list Q -> result Q)
    (e e' : CodeEntity) (d d' : DocEntity) (request : MapRequest)
    (m m' : EntityMapping) :
  without_embedding e = without_embedding e' ->
  doc_without_embedding d = doc_without_embedding d' ->
  score_pair e d request = Ok m ->
  _calculate_mapping_score cosine' e' d' request = Ok m' ->
  ((confidence m = High <-> 8 # 10 <= heuristics_score m) /\
   (confidence m = Medium <->
      5 # 10 <= heuristics_score m /\ heuristics_score m < 8 # 10) /\
   (confidence m = Low <-> heuristics_score m < 5 # 10)) /\
  heuristics_score m' = heuristics_score m /\
  confidence m' = confidence m.
Proof.
  intros He Hd Hm Hm'.
  split.
  { apply tier_cases, (pf_confidence _ _ _ (score_pair_facts e d request m Hm)). }
  assert (Hh : HeuristicMatcher.calculate_heuristics_score e' d' =
               HeuristicMatcher.calculate_heuristics_score e d).
  { change (HeuristicMatcher.calculate_heuristics_score
              (without_embedding e') (doc_without_embedding d') =
            HeuristicMatcher.calculate_heuristics_score
              (without_embedding e) (doc_without_embedding d)).
    rewrite He, Hd. reflexivity. }
  unfold _calculate_mapping_score in Hm, Hm'. rewrite Hh in Hm'.
  apply bind_ok in Hm. destruct Hm as (hc & Hhc & Hm).
  apply bind_ok in Hm'. destruct Hm' as (hc' & Hhc' & Hm').
  rewrite Hhc in Hhc'. injection Hhc' as <-.
  apply bind_ok in Hm. destruct Hm as (es & _ & Hm).
  apply bind_ok in Hm'. destruct Hm' as (es' & _ & Hm').
  injection Hm as <-. injection Hm' as <-. simpl. auto.
Qed.

(** *** Score ranges and the threshold *)





(** *** Ranking of one entity's mappings *)

Lemma insert_by_score_sorted (m : EntityMapping) (l : list EntityMapping) :
  StronglySorted by_score_desc l -> StronglySorted by_score_desc (insert_by_score m l).
Proof.
  induction 1 as [|x l Hl IH Hx]; simpl.
  - repeat constructor.
  - destruct (Qlt_le_dec (score m) (score x)) as [Hlt|Hle].
    + constructor; [exact IH|].
      apply List.Forall_forall. intros y Hy. apply insert_by_score_in in Hy.
      destruct Hy as [->|Hy].
      * apply Qlt_le_weak, Hlt.
      * exact (proj1 (List.Forall_forall _ _) Hx y Hy).
    + constructor; [constructor; assumption|].
      constructor; [exact Hle|].
      eapply List.Forall_impl; [|exact Hx].
      intros y Hy. unfold by_score_desc in *. lra.
Qed.

Lemma sort_by_score_sorted (l : list EntityMapping) :
  StronglySorted by_score_desc (sort_by_score l).
Proof.
  induction l as [|m l IH]; simpl; [constructor|].
  apply insert_by_score_sorted, IH.
Qed.






(** The candidates are the scored docs, in the caller's order, that reach
    the threshold. *)
Lemma candidate_mappings_scored (e : CodeEntity) (docs : list DocEntity)
    (request : MapRequest) (cs : list EntityMapping) :
  candidate_mappings cosine_similarity e docs request = Ok cs ->
  exists scored,
    Forall2 (fun d m => score_pair e d request = Ok m) docs scored /\
    cs = List.filter (fun m => Qle_bool (min_score_threshold request) (score m)) scored.
Proof.
  revert cs. induction docs as [|d docs IH]; simpl; intros cs H.
  - injection H as <-. exists []. split; [constructor | reflexivity].
  - apply bind_ok in H. destruct H as (m0 & Hm0 & H).
    apply bind_ok in H. destruct H as (rest & Hrest & H). injection H as <-.
    destruct (IH rest Hrest) as (scored & Hall & ->).
    exists (m0 :: scored). split; [constructor; assumption|].
    simpl. destruct (Qle_bool _ _); reflexivity.
Qed.






(** *** The embedding cache and the fallback vector *)

Local Abbreviation embed := (generate_embedding openai_embedding).

Lemma embed_hit (g : EmbeddingGenerator) (t : string) (v : list Q) :
  embedding_cache g !! _get_cache_key t = Some v -> embed g t = (v, g).
Proof. unfold generate_embedding. intros ->. reflexivity. Qed.

Lemma embed_stores (g : EmbeddingGenerator) (t : string) :
  embedding_cache (snd (embed g t)) !! _get_cache_key t = Some (fst (embed g t)).
Proof.
  unfold generate_embedding.
  destruct (embedding_cache g !! _get_cache_key t) eqn:E; simpl.
  - exact E.
  - apply lookup_insert_eq.
Qed.

Lemma embed_keeps (g : EmbeddingGenerator) (t : string) (k : string) (v : list Q) :
  embedding_cache g !! k = Some v ->
  embedding_cache (snd (embed g t)) !! k = Some v.
Proof.
  unfold generate_embedding. intros Hk.
  destruct (embedding_cache g !! _get_cache_key t) eqn:E; simpl; [exact Hk|].
  rewrite lookup_insert_ne; [exact Hk|]. intros Heq. congruence.
Qed.

Lemma embed_texts_keeps (g : EmbeddingGenerator) (ts : list string)
    (k : string) (v : list Q) :
  embedding_cache g !! k = Some v ->
  embedding_cache (embed_texts openai_embedding g ts) !! k = Some v.
Proof.
  revert g. induction ts as [|t ts IH]; simpl; intros g Hk; [exact Hk|].
  apply IH, embed_keeps, Hk.
Qed.

Lemma digest_length (msg : list Z) : length (MD5.digest msg) = 16%nat.
Proof. reflexivity. Qed.

Lemma digest_bytes (msg : list Z) (b : Z) :
  In b (MD5.digest msg) -> (0 <= b < 256)%Z.
Proof.
  unfold MD5.digest, MD5.le_bytes. intros H.
  repeat (apply in_app_or in H; destruct H as [H|H]);
    apply in_map_iff in H; destruct H as (j & <- & _);
    apply Z.mod_pos_bound; lia.
Qed.

Lemma normalize_byte_range (b : Z) :
  (0 <= b < 256)%Z -> -1 <= normalize_byte b /\ normalize_byte b <= 1.
Proof.
  intros [H0 H1]. unfold normalize_byte.
  assert (Hlo : 0 <= inject_Z b) by (unfold Qle; simpl; lia).
  assert (Hhi : inject_Z b <= 255) by (unfold Qle; simpl; lia).
  assert (Hq0 : 0 <= inject_Z b / (255 # 2)) by (apply Qle_shift_div_l; lra).
  assert (Hq2 : inject_Z b / (255 # 2) <= 2) by (apply Qle_shift_div_r; lra).
  set (q := inject_Z b / (255 # 2)) in *. split; lra.
Qed.

Lemma mock_embedding_range (t : string) :
  Forall (fun x => -1 <= x /\ x <= 1) (_generate_mock_embedding t).
Proof.
  unfold _generate_mock_embedding. apply List.Forall_forall. intros x Hx.
  apply in_map_iff in Hx. destruct Hx as (i & <- & _).
  apply normalize_byte_range, (digest_bytes (MD5.encode t)), nth_In.
  rewrite digest_length. apply Nat.mod_upper_bound. discriminate.
Qed.

(** The hexadecimal rendering loses nothing of the digest, so texts that
    share a cache key share their fallback vector. *)
Lemma hex_digit_inj (a b : Z) :
  (0 <= a < 16)%Z -> (0 <= b < 16)%Z -> MD5.hex_digit a = MD5.hex_digit b -> a = b.
Proof.
  intros Ha Hb H. unfold MD5.hex_digit in H.
  apply (f_equal N_of_ascii) in H.
  destruct (a <? 10)%Z eqn:Ea, (b <? 10)%Z eqn:Eb;
    try apply Z.ltb_lt in Ea; try apply Z.ltb_ge in Ea;
    try apply Z.ltb_lt in Eb; try apply Z.ltb_ge in Eb;
    rewrite !N_ascii_embedding in H by lia; lia.
Qed.

Lemma hex_bytes_inj (l1 l2 : list Z) :
  (forall b, In b l1 -> (0 <= b < 256)%Z) ->
  (forall b, In b l2 -> (0 <= b < 256)%Z) ->
  flat_map (fun b => [MD5.hex_digit (b / 16); MD5.hex_digit (b mod 16)]) l1 =
  flat_map (fun b => [MD5.hex_digit (b / 16); MD5.hex_digit (b mod 16)]) l2 ->
  l1 = l2.
Proof.
  revert l2. induction l1 as [|a l1 IH]; intros [|b l2] H1 H2 H; simpl in H;
    try discriminate; [reflexivity|].
  injection H as Hhi Hlo Hrest.
  assert (Ha := H1 a (or_introl eq_refl)). assert (Hb := H2 b (or_introl eq_refl)).
  assert (Hdiv : forall c, (0 <= c < 256)%Z -> (0 <= c / 16 < 16)%Z).
  { intros c Hc. split; [apply Z.div_pos | apply Z.div_lt_upper_bound]; lia. }
  assert (Hmod : forall c, (0 <= c mod 16 < 16)%Z).
  { intros c. apply Z.mod_pos_bound. lia. }
  pose proof (hex_digit_inj _ _ (Hdiv a Ha) (Hdiv b Hb) Hhi) as Ehi.
  pose proof (hex_digit_inj _ _ (Hmod a) (Hmod b) Hlo) as Elo.
  assert (a = b) as ->.
  { rewrite (Z.div_mod a 16), (Z.div_mod b 16) by lia. rewrite Ehi, Elo. reflexivity. }
  f_equal. apply IH; [intros c Hc; apply H1 | intros c Hc; apply H2 | exact Hrest];
    right; exact Hc.
Qed.

Lemma fallback_of_equal_keys (t t' : string) :
  _get_cache_key t = _get_cache_key t' ->
  _generate_mock_embedding t = _generate_mock_embedding t'.
Proof.
  unfold _get_cache_key, MD5.hexdigest. intros H.
  apply (f_equal list_ascii_of_string) in H.
  rewrite !list_ascii_of_string_of_list_ascii in H.
  apply hex_bytes_inj in H; try apply digest_bytes.
  unfold _generate_mock_embedding. rewrite H. reflexivity.
Qed.

Lemma embed_without_service (g : EmbeddingGenerator) (t : string) :
  use_openai g = false -> cache_of_fallbacks g ->
  fst (embed g t) = _generate_mock_embedding t /\
  use_openai (snd (embed g t)) = false /\
  cache_of_fallbacks (snd (embed g t)).
Proof.
  intros Hoff Hinv. unfold generate_embedding.
  destruct (embedding_cache g !! _get_cache_key t) as [v|] eqn:E; simpl.
  - auto.
  - rewrite Hoff. repeat split. intros t' v'. simpl.
    destruct (decide (_get_cache_key t = _get_cache_key t')) as [Hk|Hk].
    + rewrite <- Hk, lookup_insert_eq. intros [= <-].
      apply fallback_of_equal_keys, Hk.
    + rewrite lookup_insert_ne by exact Hk. apply Hinv.
Qed.

Lemma embed_texts_without_service (g : EmbeddingGenerator) (ts : list string) :
  use_openai g = false -> cache_of_fallbacks g ->
  use_openai (embed_texts openai_embedding g ts) = false /\
  cache_of_fallbacks (embed_texts openai_embedding g ts).
Proof.
  revert g. induction ts as [|t ts IH]; simpl; intros g Hoff Hinv; [auto|].
  destruct (embed_without_service g t Hoff Hinv) as (_ & Hoff' & Hinv').
  apply IH; assumption.
Qed.

(** C7. Embedding a text again later in the same run - whatever was
    embedded in between, and whatever the service would answer now -
    returns the vector of the first call from the cache and leaves the
    generator unchanged.  The fallback vector depends on the text alone: it
    has 1536 components, all in [-1, 1]; any generator that has no cached
    entry for the text and no service (or a failing one) returns exactly
    that vector; and so does every run without service, at any point of
    it. *)
Theorem embedding_deterministic (g : EmbeddingGenerator) (t : string)
    (between : list string) :
  let first := embed g t in
  let resumed := embed_texts openai_embedding (snd first) between in
  (embed resumed t = (fst first, resumed)) /\
  (length (_generate_mock_embedding t) = 1536%nat /\
   Forall (fun x => -1 <= x /\ x <= 1) (_generate_mock_embedding t)) /\
  (forall g0 : EmbeddingGenerator,
      embedding_cache g0 !! _get_cache_key t = None ->
      use_openai g0 = false \/ openai_embedding (requests_sent g0) t = None ->
      fst (embed g0 t) = _generate_mock_embedding t) /\
  (forall earlier : list string,
      fst (embed (embed_texts openai_embedding (fresh_generator false) earlier) t)
      = _generate_mock_embedding t).
Proof.
  cbv zeta. split; [|split; [split|split]].
  - apply embed_hit, embed_texts_keeps, embed_stores.
  - unfold _generate_mock_embedding. rewrite length_map, length_seq. reflexivity.
  - apply mock_embedding_range.
  - intros g0 Hmiss Hfallback. unfold generate_embedding. rewrite Hmiss. simpl.
    destruct (use_openai g0); [|reflexivity].
    destruct Hfallback as [Hoff|Hfail]; [discriminate|].
    unfold _generate_openai_embedding. rewrite Hfail. reflexivity.
  - intros earlier.
    assert (Hfresh : cache_of_fallbacks (fresh_generator false)).
    { intros t' v'. simpl. rewrite lookup_empty. discriminate. }
    destruct (embed_texts_without_service (fresh_generator false) earlier eq_refl Hfresh)
      as (Hoff & Hinv).
    apply embed_without_service; assumption.
Qed.

(** *** Exceptions raised while scoring *)

Lemma embed_entities_primed (g : EmbeddingGenerator) (es : list CodeEntity) :
  Forall2 primed_from es (fst (embed_entities openai_embedding g es)).
Proof.
  revert g. induction es as [|e es IH]; intros g; simpl; [constructor|].
  destruct (truthy (embedding e)) eqn:E.
  - specialize (IH g). destruct (embed_entities openai_embedding g es) as [rest g'].
    simpl in *. constructor; [split; auto | exact IH].
  - destruct (generate_embedding openai_embedding g (_entity_to_text e)) as [v g1].
    specialize (IH g1). destruct (embed_entities openai_embedding g1 es) as [rest g'].
    simpl in *. constructor; [split; [reflexivity | intros Ht; congruence] | exact IH].
Qed.

Lemma embed_docs_primed (g : EmbeddingGenerator) (ds : list DocEntity) :
  Forall2 doc_primed_from ds (fst (embed_docs openai_embedding g ds)).
Proof.
  revert g. induction ds as [|d ds IH]; intros g; simpl; [constructor|].
  destruct (truthy (doc_embedding d)) eqn:E.
  - specialize (IH g). destruct (embed_docs openai_embedding g ds) as [rest g'].
    simpl in *. constructor; [split; auto | exact IH].
  - destruct (generate_embedding openai_embedding g (_doc_to_text d)) as [v g1].
    specialize (IH g1). destruct (embed_docs openai_embedding g1 ds) as [rest g'].
    simpl in *. constructor; [split; [reflexivity | intros Ht; congruence] | exact IH].
Qed.

Lemma forall2_in_l {A B : Type} (R : A -> B -> Prop) (l : list A) (l' : list B)
    (x : A) :
  Forall2 R l l' -> In x l -> exists y, In y l' /\ R x y.
Proof.
  induction 1 as [|a b l l' Hab Hl IH]; simpl; intros Hin; [destruct Hin|].
  destruct Hin as [<-|Hin].
  - exists b. auto.
  - destruct (IH Hin) as (y & ? & ?). exists y. auto.
Qed.

Lemma score_pair_raise_primed (e e' : CodeEntity) (d d' : DocEntity)
    (request : MapRequest) (x : exn) :
  primed_from e e' -> doc_primed_from d d' ->
  score_pair e d request = Raise x ->
  exists x', score_pair e' d' request = Raise x'.
Proof.
  intros [He Hekeep] [Hd Hdkeep] H.
  assert (Hh : HeuristicMatcher.calculate_heuristics_score e' d' =
               HeuristicMatcher.calculate_heuristics_score e d).
  { change (HeuristicMatcher.calculate_heuristics_score
              (without_embedding e') (doc_without_embedding d') =
            HeuristicMatcher.calculate_heuristics_score
              (without_embedding e) (doc_without_embedding d)).
    rewrite He, Hd. reflexivity. }
  unfold _calculate_mapping_score in *. rewrite Hh.
  destruct (if use_heuristics request then _ else _) as [hc|x0]; simpl in *;
    [|exists x0; reflexivity].
  destruct (embedding e) as [[|a u]|] eqn:Ee; try discriminate.
  destruct (doc_embedding d) as [[|b v]|] eqn:Ed; try discriminate.
  rewrite (Hekeep eq_refl), (Hdkeep eq_refl), Ee, Ed.
  exists x. exact H.
Qed.

Lemma candidate_mappings_raise (e : CodeEntity) (docs : list DocEntity)
    (d : DocEntity) (request : MapRequest) (x : exn) :
  In d docs -> score_pair e d request = Raise x ->
  exists x', candidate_mappings cosine_similarity e docs request = Raise x'.
Proof.
  induction docs as [|d0 docs IH]; simpl; intros Hin H; [destruct Hin|].
  destruct (score_pair e d0 request) as [m0|x0] eqn:E0; simpl.
  - destruct Hin as [->|Hin]; [congruence|].
    destruct (IH Hin H) as (x' & ->). exists x'. reflexivity.
  - exists x0. reflexivity.
Qed.

Lemma map_entity_raise (e : CodeEntity) (docs : list DocEntity)
    (d : DocEntity) (request : MapRequest) (x : exn) :
  In d docs -> score_pair e d request = Raise x ->
  exists x', map_entity e docs request = Raise x'.
Proof.
  intros Hin H. destruct (candidate_mappings_raise e docs d request x Hin H) as (x' & Hx').
  exists x'. unfold _map_entity_to_docs. rewrite Hx'. reflexivity.
Qed.

Lemma entity_loop_raise (before after : list CodeEntity) (e : CodeEntity)
    (docs : list DocEntity) (d : DocEntity) (request : MapRequest)
    (acc : list EntityMapping) (x : exn) :
  (forall e0 ms, In e0 before -> map_entity e0 docs request = Ok ms ->
                 (Z.of_nat (length ms) < max_mappings_per_entity request)%Z) ->
  In d docs -> score_pair e d request = Raise x ->
  exists x', entity_loop cosine_similarity (before ++ e :: after) docs request acc
             = Raise x'.
Proof.
  intros Hbefore Hin H. revert acc.
  induction before as [|e0 before IH]; simpl; intros acc.
  - destruct (map_entity_raise e docs d request x Hin H) as (x' & ->).
    exists x'. reflexivity.
  - destruct (map_entity e0 docs request) as [ms|x0] eqn:E0; simpl;
      [|exists x0; reflexivity].
    assert (Hlt := Hbefore e0 ms (or_introl eq_refl) E0).
    destruct (_ <=? _)%Z eqn:Ecap; [apply Z.leb_le in Ecap; lia|].
    apply IH. intros e1 ms1 H1. apply Hbefore. right. exact H1.
Qed.

(** C4 (as the code has it). No exception is caught per pair.  If scoring
    one pair (entity, doc) raises, then [_map_entity_to_docs] raises for
    that entity, so none of the entity's other pairs yields a mapping; the
    loop over the entities raises as soon as it reaches that entity, which
    it does unless an earlier entity filled its cap; and when the entity is
    the first of the request, [generate_mappings] raises and the handler
    publishes no result at all. *)
Theorem scoring_exception_aborts_request (g : EmbeddingGenerator)
    (before after : list CodeEntity) (e : CodeEntity) (docs : list DocEntity)
    (d : DocEntity) (request : MapRequest) (acc : list EntityMapping) (x : exn) :
  In d docs -> score_pair e d request = Raise x ->
  (forall e0 ms, In e0 before -> map_entity e0 docs request = Ok ms ->
                 (Z.of_nat (length ms) < max_mappings_per_entity request)%Z) ->
  (exists x', map_entity e docs request = Raise x') /\
  (exists x', entity_loop cosine_similarity (before ++ e :: after) docs request acc
              = Raise x') /\
  (exists x', fst (run g (e :: after) docs request) = Raise x') /\
  fst (process_request openai_embedding cosine_similarity g (e :: after) docs request)
    = None.
Proof.
  intros Hin H Hbefore.
  split; [exact (map_entity_raise e docs d request x Hin H)|].
  split; [exact (entity_loop_raise before after e docs d request acc x Hbefore Hin H)|].
  assert (Hrun : exists x', fst (run g (e :: after) docs request) = Raise x').
  { unfold generate_mappings. destruct (use_embeddings request).
    - unfold _generate_embeddings.
      pose proof (embed_entities_primed g (e :: after)) as Hes.
      destruct (embed_entities openai_embedding g (e :: after)) as [es' g1].
      pose proof (embed_docs_primed g1 docs) as Hds.
      destruct (embed_docs openai_embedding g1 docs) as [docs' g2].
      simpl in *. inversion Hes as [|e0 e' l l' He Hrest]; subst.
      destruct (forall2_in_l _ _ _ _ Hds Hin) as (d' & Hin' & Hd).
      destruct (score_pair_raise_primed e e' d d' request x He Hd H) as (x1 & H1).
      exact (entity_loop_raise [] l' e' docs' d' request [] x1
               (fun e0 ms (F : In e0 []) _ => match F with end) Hin' H1).
    - simpl.
      exact (entity_loop_raise [] after e docs d request [] x
               (fun e0 ms (F : In e0 []) _ => match F with end) Hin H). }
  split; [exact Hrun|].
  destruct Hrun as (x' & Hx'). unfold process_request.
  destruct (run g (e :: after) docs request) as [r g']. simpl in Hx'. subst r.
  reflexivity.
Qed.


(** *** Further properties of the specification *)

(** Every returned mapping is identified by its entity and doc, and the
    engine never sets [manual_override]. *)
Theorem returned_mapping_identity (g : EmbeddingGenerator) (es : list CodeEntity)
    (docs : list DocEntity) (request : MapRequest)
    (ms : list EntityMapping) (m : EntityMapping) :
  fst (run g es docs request) = Ok ms -> In m ms ->
  mapping_id m = entity_id m +:+ ":" +:+ doc_id m /\ manual_override m = false.
Proof.
  intros H Hin. destruct (run_pair_facts g es docs request ms m H Hin) as [F _].
  split; [exact (pf_id _ _ _ F) | exact (pf_manual _ _ _ F)].
Qed.

Lemma score_pair_both_off (e : CodeEntity) (d : DocEntity) (request : MapRequest) :
  use_heuristics request = false -> use_embeddings request = false ->
  exists m, score_pair e d request = Ok m /\ score m = 0.
Proof.
  intros Hh He. unfold _calculate_mapping_score. rewrite Hh, He. simpl.
  destruct (embedding e) as [[|x u]|]; [| destruct (doc_embedding d) as [[|y v]|] |];
    simpl; eexists; split; reflexivity.
Qed.

Lemma candidate_mappings_both_off (e : CodeEntity) (docs : list DocEntity)
    (request : MapRequest) :
  use_heuristics request = false -> use_embeddings request = false ->
  0 < min_score_threshold request ->
  candidate_mappings cosine_similarity e docs request = Ok [].
Proof.
  intros Hh He Hthr. induction docs as [|d docs IH]; simpl; [reflexivity|].
  destruct (score_pair_both_off e d request Hh He) as (m & -> & Hm).
  simpl. rewrite IH. simpl. rewrite Hm.
  destruct (Qle_bool (min_score_threshold request) 0) eqn:E; [|reflexivity].
  apply Qle_bool_iff in E. exfalso. lra.
Qed.

Lemma entity_loop_both_off (es : list CodeEntity) (docs : list DocEntity)
    (request : MapRequest) :
  use_heuristics request = false -> use_embeddings request = false ->
  0 < min_score_threshold request ->
  entity_loop cosine_similarity es docs request [] = Ok [].
Proof.
  intros Hh He Hthr. induction es as [|e es IH]; simpl; [reflexivity|].
  unfold _map_entity_to_docs. rewrite (candidate_mappings_both_off e docs request Hh He Hthr).
  simpl. assert (Hslice : slice_to (max_mappings_per_entity request) (@nil EntityMapping) = []).
  { unfold slice_to. destruct (_ <? 0)%Z; apply firstn_nil. }
  rewrite Hslice. simpl. destruct (_ <=? _)%Z; [reflexivity | exact IH].
Qed.

(** With both scorers off every pair scores 0, so with a positive
    threshold [generate_mappings] returns no mapping, and the published
    result reports success with [mappings_created = 0]. *)
Theorem nothing_scores_with_both_scorers_off (g : EmbeddingGenerator)
    (es : list CodeEntity) (docs : list DocEntity) (request : MapRequest) :
  use_heuristics request = false -> use_embeddings request = false ->
  0 < min_score_threshold request ->
  fst (run g es docs request) = Ok [] /\
  exists r, fst (process_request openai_embedding cosine_similarity g es docs request)
            = Some r /\
            mappings r = [] /\ mappings_created r = 0%nat /\ success r = true.
Proof.
  intros Hh He Hthr.
  assert (Hrun : run g es docs request = (Ok [], g)).
  { unfold generate_mappings. rewrite He.
    rewrite (entity_loop_both_off es docs request Hh He Hthr). reflexivity. }
  split; [rewrite Hrun; reflexivity|].
  unfold process_request. rewrite Hrun. simpl. eexists. repeat split.
Qed.

End EngineProperties.

(** ** Word extraction *)

Section WordExtraction.
Import Text Re.

Lemma lower_char_classes (c : ascii) :
  is_upper (lower_char c) = false /\
  is_word (lower_char c) = is_word c /\
  is_sep (lower_char c) = is_sep c /\
  is_alnum (lower_char c) = is_alnum c.
Proof.
  destruct c as [[] [] [] [] [] [] [] []]; vm_compute; auto.
Qed.

Lemma lower_length (s : string) : String.length (lower s) = String.length s.
Proof.
  unfold lower. induction s as [|c s IH]; simpl; [reflexivity | rewrite IH; reflexivity].
Qed.

Lemma lower_short_runs (s : string) (kept : nat) :
  short_runs kept (lower s) = short_runs kept s.
Proof.
  revert kept. induction s as [|c s IH]; intros kept; simpl; [reflexivity|].
  destruct (lower_char_classes c) as (_ & -> & _ & ->).
  rewrite !IH. reflexivity.
Qed.

Lemma lower_sep_triple (s : string) :
  has_sep_triple (lower s) = has_sep_triple s.
Proof.
  induction s as [|a s IH]; [reflexivity|].
  destruct s as [|b [|c s]]; try reflexivity.
  change (lower (String a (String b (String c s))))
    with (String (lower_char a) (lower (String b (String c s)))).
  change (lower (String b (String c s)))
    with (String (lower_char b) (String (lower_char c) (lower s))) in *.
  cbn [has_sep_triple] in *. rewrite IH.
  destruct (lower_char_classes a) as (_ & -> & _ & _).
  destruct (lower_char_classes b) as (_ & _ & -> & _).
  destruct (lower_char_classes c) as (_ & -> & _ & _).
  reflexivity.
Qed.

(** The capitals pattern finds nothing in lowered text. *)
Lemma camel_on_lowered (s : string) (skip : nat) :
  findall match_camel skip (lower s) = [].
Proof.
  revert skip. induction s as [|c s IH]; intros skip; [reflexivity|].
  change (lower (String c s)) with (String (lower_char c) (lower s)).
  cbn [findall]. destruct skip; [|apply IH].
  unfold match_camel. destruct (lower_char_classes c) as (-> & _). apply IH.
Qed.

(** *** The separator pattern *)

Lemma sep_triple_tail (a : ascii) (s : string) :
  has_sep_triple (String a s) = false -> has_sep_triple s = false.
Proof.
  destruct s as [|b [|c s]]; try reflexivity.
  cbn [has_sep_triple]. intros H. apply orb_false_iff in H. apply H.
Qed.

Lemma no_sep_triple_at (s : string) (j : nat) (a b c : ascii) :
  has_sep_triple s = false ->
  String.get j s = Some a -> String.get (S j) s = Some b ->
  String.get (S (S j)) s = Some c ->
  is_word a && is_sep b && is_word c = false.
Proof.
  revert s. induction j as [|j IH]; intros s Hs Ha Hb Hc.
  - destruct s as [|a' [|b' [|c' s]]]; try discriminate.
    simpl in Ha, Hb, Hc. injection Ha as <-. injection Hb as <-. injection Hc as <-.
    cbn [has_sep_triple] in Hs. apply orb_false_iff in Hs. apply Hs.
  - destruct s as [|a' s]; [discriminate|].
    apply (IH s); [exact (sep_triple_tail a' s Hs) | assumption..].
Qed.

Lemma take_while_get (p : ascii -> bool) (s : string) (k : nat) :
  (k < String.length (take_while p s))%nat ->
  exists c, String.get k s = Some c /\ p c = true.
Proof.
  revert k. induction s as [|a s IH]; simpl; intros k Hk; [lia|].
  destruct (p a) eqn:E; simpl in Hk; [|lia].
  destruct k as [|k]; [exists a; auto|]. apply IH. lia.
Qed.

Lemma get_drop (s : string) (k : nat) :
  String.get 0 (drop k s) = String.get k s.
Proof.
  revert s. induction k as [|k IH]; intros [|a s]; simpl; auto.
Qed.

Lemma take_while_head (p : ascii -> bool) (s : string) :
  is_empty (take_while p s) = false ->
  exists c, String.get 0 s = Some c /\ p c = true.
Proof.
  destruct s as [|a s]; simpl; [discriminate|].
  destruct (p a) eqn:E; [|discriminate]. exists a. auto.
Qed.

Lemma backtrack_none {A : Type} (n : nat) (cont : nat -> option A) :
  (forall k, (1 <= k <= n)%nat -> cont k = None) -> backtrack n cont = None.
Proof.
  induction n as [|n IH]; intros H; simpl; [reflexivity|].
  rewrite (H (S n)) by lia. apply IH. intros k Hk. apply H. lia.
Qed.

Lemma match_snake_none (s : string) :
  has_sep_triple s = false -> match_snake s = None.
Proof.
  intros Hs. unfold match_snake. apply backtrack_none. intros k [Hk1 Hkn].
  destruct (String.get k s) as [b|] eqn:Eb; [|reflexivity].
  destruct (is_sep b) eqn:Esep; [|reflexivity].
  destruct (is_empty (take_while is_word (drop (S k) s))) eqn:Ew2; [reflexivity|].
  exfalso.
  destruct (take_while_head _ _ Ew2) as (c & Hc & Hcw). rewrite get_drop in Hc.
  destruct k as [|j]; [lia|].
  destruct (take_while_get is_word s j) as (a & Ha & Haw); [lia|].
  pose proof (no_sep_triple_at s j a b c Hs Ha Eb Hc) as Hno.
  rewrite Haw, Esep, Hcw in Hno. discriminate.
Qed.

Lemma snake_without_triple (s : string) (skip : nat) :
  has_sep_triple s = false -> findall match_snake skip s = [].
Proof.
  revert skip. induction s as [|a s IH]; intros skip Hs; [reflexivity|].
  pose proof (sep_triple_tail a s Hs) as Htail.
  cbn [findall]. destruct skip; [|apply IH, Htail].
  rewrite (match_snake_none _ Hs). apply IH, Htail.
Qed.

(** *** The word pattern on names made of short runs *)

Lemma short_runs_bound (s : string) (kept : nat) :
  short_runs kept s = true ->
  (kept + kept_length (take_while is_word s) <= 2)%nat.
Proof.
  unfold kept_length. rewrite lower_length. revert kept.
  induction s as [|c s IH]; simpl; intros kept H.
  - apply Nat.leb_le in H. lia.
  - destruct (is_word c) eqn:Ew.
    + specialize (IH _ H). simpl. destruct (is_alnum c); simpl in *; lia.
    + apply andb_true_iff in H. destruct H as [H _]. apply Nat.leb_le in H.
      simpl. lia.
Qed.

Lemma match_word_head (c : ascii) (s : string) :
  match_word (String c s) =
    if is_word c
    then Some (String c (take_while is_word s), S (String.length (take_while is_word s)))
    else None.
Proof. unfold match_word. simpl. destruct (is_word c); reflexivity. Qed.

Lemma words_of_short_runs (s : string) (skip kept : nat) :
  (skip <= String.length (take_while is_word s))%nat ->
  short_runs kept s = true ->
  clean_words (map FStr (findall match_word skip s)) = Ok [].
Proof.
  revert skip kept. induction s as [|c s IH]; intros skip kept Hskip H;
    [reflexivity|].
  cbn [findall]. rewrite match_word_head.
  pose proof (short_runs_bound (String c s) kept H) as Hb.
  simpl in Hskip, H, Hb. destruct (is_word c) eqn:Ew.
  - destruct skip as [|skip].
    + cbn [Nat.pred map clean_words re_sub_non_alnum bind].
      rewrite (IH _ _ (Nat.le_refl _) H). cbn [bind].
      unfold kept_length in Hb.
      destruct (2 <? _)%nat eqn:E; [|reflexivity].
      apply Nat.ltb_lt in E. lia.
    + simpl in Hskip. eapply IH; [|exact H]. lia.
  - simpl in Hskip. assert (skip = 0)%nat as -> by lia.
    apply andb_true_iff in H. destruct H as [_ H].
    eapply IH; [|exact H]. lia.
Qed.

Lemma clean_words_strings (l : list string) :
  exists ws, clean_words (map FStr l) = Ok ws.
Proof.
  induction l as [|w l (ws & IH)]; simpl; [eauto|].
  rewrite IH. simpl. eauto.
Qed.

Lemma clean_words_long (l : list found) (ws : list string) (w : string) :
  clean_words l = Ok ws -> In w ws -> (2 < String.length w)%nat.
Proof.
  revert ws. induction l as [|f l IH]; simpl; intros ws H Hin.
  - injection H as <-. destruct Hin.
  - apply bind_ok in H. destruct H as (stripped & _ & H).
    apply bind_ok in H. destruct H as (rest & Hrest & H). injection H as <-.
    destruct (2 <? _)%nat eqn:E; [|exact (IH rest Hrest Hin)].
    destruct Hin as [<-|Hin]; [apply Nat.ltb_lt, E | exact (IH rest Hrest Hin)].
Qed.

Lemma found_words_without_triple (t : string) :
  has_sep_triple t = false ->
  found_words (lower t) = map FStr (findall match_word 0 (lower t)).
Proof.
  intros Ht. unfold found_words.
  rewrite camel_on_lowered, snake_without_triple
    by (rewrite lower_sep_triple; exact Ht).
  simpl. rewrite app_nil_r. reflexivity.
Qed.

Lemma extract_words_succeeds (t : string) :
  has_sep_triple t = false -> exists ws, _extract_words (lower t) = Ok ws.
Proof.
  intros Ht. unfold _extract_words. rewrite (found_words_without_triple t Ht).
  destruct (clean_words_strings (findall match_word 0 (lower t))) as (ws & ->).
  simpl. eauto.
Qed.

Lemma extract_words_short (n : string) :
  short_runs 0 n = true -> has_sep_triple n = false ->
  _extract_words (lower n) = Ok [].
Proof.
  intros Hshort Hn. unfold _extract_words. rewrite (found_words_without_triple n Hn).
  rewrite (words_of_short_runs (lower n) 0 0); [reflexivity | lia|].
  rewrite lower_short_runs. exact Hshort.
Qed.

Lemma heading_loop_no_words (hs : list Heading) (acc : Q) :
  Forall (fun h => has_sep_triple (heading_text h) = false) hs ->
  HeuristicMatcher.heading_loop (py_set []) hs acc = Ok acc.
Proof.
  induction 1 as [|h hs Hh Hhs IH]; simpl; [reflexivity|].
  destruct (extract_words_succeeds _ Hh) as (ws & ->). simpl. exact IH.
Qed.

(** C10 (as the code has it). Word extraction keeps only words of more
    than two characters.  For a name in which every run of word characters
    (letters, digits, underscore) keeps at most two characters once the
    underscores are removed, and in which no separator stands between two
    word characters, extraction yields no word, and name similarity and
    heading similarity are 0 against every title and all headings that have
    no separator between two word characters either - the name itself
    included. *)
Theorem short_names_score_zero (n : string) :
  short_runs 0 n = true -> has_sep_triple n = false ->
  (forall t ws w, _extract_words t = Ok ws -> In w ws -> (2 < String.length w)%nat) /\
  _extract_words (lower n) = Ok [] /\
  HeuristicMatcher._calculate_name_similarity n n = Ok 0%Q /\
  (forall t, has_sep_triple t = false ->
             HeuristicMatcher._calculate_name_similarity n t = Ok 0%Q) /\
  (forall hs, Forall (fun h => has_sep_triple (heading_text h) = false) hs ->
              HeuristicMatcher._calculate_heading_similarity n hs = Ok 0%Q).
Proof.
  intros Hshort Hn.
  pose proof (extract_words_short n Hshort Hn) as Hnone.
  assert (Hname : forall t, has_sep_triple t = false ->
            HeuristicMatcher._calculate_name_similarity n t = Ok 0%Q).
  { intros t Ht. unfold HeuristicMatcher._calculate_name_similarity.
    destruct (is_empty n || is_empty t); [reflexivity|].
    rewrite Hnone. destruct (extract_words_succeeds t Ht) as (ws & ->).
    reflexivity. }
  split; [|split; [exact Hnone | split; [exact (Hname n Hn) | split; [exact Hname|]]]].
  - intros t ws w H Hin. unfold _extract_words in H.
    apply bind_ok in H. destruct H as (cleaned & Hc & H). injection H as <-.
    apply (clean_words_long _ cleaned w Hc).
    unfold py_set in Hin. apply nodup_In in Hin. exact Hin.
  - intros hs Hhs. unfold HeuristicMatcher._calculate_heading_similarity.
    rewrite Hnone. simpl bind. apply heading_loop_no_words, Hhs.
Qed.

End WordExtraction.

(** ** Scenarios *)

Section Scenarios.
Import Sample.
Local Open Scope Q_scope.

Local Abbreviation run := (generate_mappings no_service crude_cosine (fresh_generator false)).
Local Abbreviation handle := (process_request no_service crude_cosine (fresh_generator false)).

(** C1 (what the code does). With the default cap of five, the parser
    reaches its cap on the five parser docs, and [generate_mappings] stops
    there: the result holds the parser's five mappings only, although the
    lexer, scored on its own against the same docs, has a mapping that
    passes the threshold. *)
Theorem cap_of_one_entity_ends_the_loop :
  (exists ms, fst (run [parser; lexer] library heuristics_only) = Ok ms /\
              length ms = 5%nat /\
              Forall (fun m => entity_id m = "parser") ms) /\
  (exists m, _map_entity_to_docs crude_cosine lexer library heuristics_only = Ok [m] /\
             entity_id m = "lexer" /\ doc_id m = "lexer_notes" /\
             Qle_bool (min_score_threshold heuristics_only) (score m) = true).
Proof.
  split.
  - eexists. split; [vm_compute; reflexivity|].
    split; [reflexivity | repeat constructor].
  - eexists. split; [vm_compute; reflexivity|]. repeat split.
Qed.

(** C2 (what the code does). The callers lower the text before extracting
    words, so the capitals pattern never splits [getUser]: its only word is
    [getuser], which the title words [get], [user], [guide] do not
    contain.  Name similarity is 0, the heuristic score is 0 rather than
    0.4, and the confidence is low. *)
Theorem getUser_scenario :
  _extract_words (Text.lower "getUser") = Ok ["getuser"] /\
  _extract_words (Text.lower "Get User Guide") = Ok ["get"; "user"; "guide"] /\
  HeuristicMatcher._calculate_name_similarity "getUser" "Get User Guide" = Ok 0 /\
  (exists h, HeuristicMatcher.calculate_heuristics_score getUser guide = Ok (h, Low) /\
             h == 0 /\ ~ h == 4 # 10).
Proof.
  split; [vm_compute; reflexivity|].
  split; [vm_compute; reflexivity|].
  split; [vm_compute; reflexivity|].
  eexists. split; [vm_compute; reflexivity|].
  split; [reflexivity | discriminate].
Qed.

(** C4 (counterexample). The parser scores 0.4 against the parser notes,
    above the threshold; scoring it against a doc titled [Set-up guide]
    raises a [TypeError]; the whole of [generate_mappings] then raises, and
    the handler publishes nothing: the good pair's mapping is lost. *)
Lemma one_bad_title_loses_the_batch :
  (exists m, _calculate_mapping_score crude_cosine parser (parser_notes 1)
               heuristics_only = Ok m /\
             Qle_bool (min_score_threshold heuristics_only) (score m) = true) /\
  _calculate_mapping_score crude_cosine parser set_up_guide heuristics_only
    = Raise TypeError /\
  fst (run [parser; lexer] mixed_docs heuristics_only) = Raise TypeError /\
  fst (handle [parser; lexer] mixed_docs heuristics_only) = None.
Proof.
  split; [eexists; split; [vm_compute; reflexivity | reflexivity]|].
  repeat split; vm_compute; reflexivity.
Qed.

(** C10 (counterexample). In [do_it] the word pattern finds the single run
    [do_it], cleaned to [doit], a word of four characters; the separator
    pattern finds the pair ([do], [it]), on which cleaning raises.  Name and
    heading similarity of [do_it] against the identical text are therefore
    not 0: they raise a [TypeError]. *)
Lemma do_it_is_not_scored_zero :
  clean_words (map FStr (Re.findall Re.match_word 0 "do_it")) = Ok ["doit"] /\
  Re.findall Re.match_snake 0 "do_it" = [("do", "it")] /\
  _extract_words "do_it" = Raise TypeError /\
  HeuristicMatcher._calculate_name_similarity "do_it" "do_it" = Raise TypeError /\
  HeuristicMatcher._calculate_heading_similarity "do_it" [do_it_heading]
    = Raise TypeError.
Proof. repeat split; vm_compute; reflexivity. Qed.



(** *** The theorems at sample inputs *)


(** [scoring_exception_aborts_request] on the doc titled [Set-up guide]. *)
Lemma scoring_exception_aborts_request_set_up :
  In set_up_guide mixed_docs /\
  _calculate_mapping_score crude_cosine parser set_up_guide heuristics_only
    = Raise TypeError /\
  ((exists x', _map_entity_to_docs crude_cosine parser mixed_docs heuristics_only
               = Raise x') /\
   (exists x', entity_loop crude_cosine ([] ++ parser :: [lexer]) mixed_docs
                 heuristics_only [] = Raise x') /\
   (exists x', fst (run (parser :: [lexer]) mixed_docs heuristics_only) = Raise x') /\
   fst (handle (parser :: [lexer]) mixed_docs heuristics_only) = None).
Proof.
  split; [right; left; reflexivity|].
  split; [vm_compute; reflexivity|].
  apply (scoring_exception_aborts_request no_service crude_cosine (fresh_generator false)
           [] [lexer] parser mixed_docs set_up_guide heuristics_only [] TypeError).
  - right; left; reflexivity.
  - vm_compute; reflexivity.
  - intros e0 ms [].
Defined.

(** [relation_follows_score] on a pair of equal vectors, heuristics off:
    score 1, relation [describes]. *)
Lemma relation_follows_score_equal_vectors :
  exists ms m,
    fst (run [set_entity_embedding parser east]
             [set_doc_embedding (parser_notes 1) east] embeddings_only) = Ok ms /\
    In m ms /\ relation m = Describes /\
    ((relation m = Describes <-> 8 # 10 <= score m) /\
     (relation m = References <-> 5 # 10 <= score m /\ score m < 8 # 10) /\
     (relation m = Mentions <-> score m < 5 # 10)).
Proof.
  eexists. eexists. split; [vm_compute; reflexivity|].
  split; [left; reflexivity|]. split; [reflexivity|].
  eapply (relation_follows_score no_service crude_cosine (fresh_generator false)
           [set_entity_embedding parser east]
           [set_doc_embedding (parser_notes 1) east] embeddings_only);
    [vm_compute; reflexivity | left; reflexivity].
Defined.


(** [confidence_ignores_embeddings] on two runs whose vectors differ: the
    blended scores differ, the confidence is medium in both. *)
Lemma confidence_ignores_embeddings_two_runs :
  exists m m',
    _calculate_mapping_score crude_cosine (set_entity_embedding parser east)
      (set_doc_embedding parser_source east) blended = Ok m /\
    _calculate_mapping_score crude_cosine (set_entity_embedding parser north)
      (set_doc_embedding parser_source east) blended = Ok m' /\
    ~ score m == score m' /\ confidence m = Medium /\
    (((confidence m = High <-> 8 # 10 <= heuristics_score m) /\
      (confidence m = Medium <->
         5 # 10 <= heuristics_score m /\ heuristics_score m < 8 # 10) /\
      (confidence m = Low <-> heuristics_score m < 5 # 10)) /\
     heuristics_score m' = heuristics_score m /\
     confidence m' = confidence m).
Proof.
  eexists. eexists. split; [vm_compute; reflexivity|].
  split; [vm_compute; reflexivity|]. split; [discriminate|]. split; [reflexivity|].
  apply (confidence_ignores_embeddings crude_cosine crude_cosine
           (set_entity_embedding parser east) (set_entity_embedding parser north)
           (set_doc_embedding parser_source east)
           (set_doc_embedding parser_source east) blended);
    reflexivity || (vm_compute; reflexivity).
Defined.

(** [confidence_low_without_heuristics] on a pair of equal vectors: score
    1, confidence low. *)
Lemma confidence_low_without_heuristics_equal_vectors :
  exists ms m,
    use_heuristics embeddings_only = false /\
    fst (run [set_entity_embedding parser east]
             [set_doc_embedding (parser_notes 1) east] embeddings_only) = Ok ms /\
    In m ms /\ score m == 1 /\ confidence m = Low.
Proof.
  eexists. eexists. split; [reflexivity|].
  split; [vm_compute; reflexivity|].
  split; [left; reflexivity|]. split; [reflexivity|].
  eapply (confidence_low_without_heuristics no_service crude_cosine (fresh_generator false)
           [set_entity_embedding parser east]
           [set_doc_embedding (parser_notes 1) east] embeddings_only);
    [reflexivity | vm_compute; reflexivity | left; reflexivity].
Defined.

(** [short_names_score_zero] on the name [id]. *)
Lemma short_names_score_zero_id :
  short_runs 0 "id" = true /\ has_sep_triple "id" = false /\
  _extract_words (Text.lower "id") = Ok [] /\
  HeuristicMatcher._calculate_name_similarity "id" "id" = Ok 0 /\
  HeuristicMatcher._calculate_heading_similarity "id" [id_heading] = Ok 0.
Proof.
  split; [reflexivity|]. split; [reflexivity|].
  destruct (short_names_score_zero "id" eq_refl eq_refl) as (_ & Hnone & Hsame & _ & Hhead).
  split; [exact Hnone|]. split; [exact Hsame|].
  apply Hhead. repeat constructor.
Defined.

(** Entity path [a/b/c.py] against doc path [a/b/d.md]: two of the three
    leading segments agree. *)
Theorem path_similarity_scenario :
  HeuristicMatcher._calculate_path_similarity "a/b/c.py" "a/b/d.md" == 2 # 3.
Proof. reflexivity. Qed.

(** [returned_mapping_identity] on the parser's first mapping. *)
Lemma returned_mapping_identity_parser :
  exists ms m,
    fst (run [parser; lexer] library heuristics_only) = Ok ms /\ In m ms /\
    mapping_id m = "parser:notes_1" /\
    (mapping_id m = entity_id m +:+ ":" +:+ doc_id m /\ manual_override m = false).
Proof.
  eexists. eexists. split; [vm_compute; reflexivity|].
  split; [left; reflexivity|]. split; [reflexivity|].
  eapply (returned_mapping_identity no_service crude_cosine (fresh_generator false)
            [parser; lexer] library heuristics_only);
    [vm_compute; reflexivity | left; reflexivity].
Defined.

(** [nothing_scores_with_both_scorers_off] on the sample library. *)
Lemma nothing_scores_with_both_scorers_off_library :
  use_heuristics (request false false 5) = false /\
  use_embeddings (request false false 5) = false /\
  0 < min_score_threshold (request false false 5) /\
  (fst (run [parser; lexer] library (request false false 5)) = Ok [] /\
   exists r, fst (handle [parser; lexer] library (request false false 5)) = Some r /\
             mappings r = [] /\ mappings_created r = 0%nat /\ success r = true).
Proof.
  split; [reflexivity|]. split; [reflexivity|]. split; [reflexivity|].
  apply (nothing_scores_with_both_scorers_off no_service crude_cosine
           (fresh_generator false) [parser; lexer] library (request false false 5));
    reflexivity.
Defined.

End Scenarios.

(** * Further properties of the code *)

(** ** When word extraction fails, and what it returns *)

Section ExtractionOutcome.
Import Text Re.

Lemma backtrack_some {A : Type} (n k : nat) (cont : nat -> option A) (r : A) :
  (1 <= k <= n)%nat -> cont k = Some r -> exists r', backtrack n cont = Some r'.
Proof.
  induction n as [|n IH]; intros Hk Hr; [lia|]. simpl.
  destruct (cont (S n)) as [r1|] eqn:E; [eauto|].
  apply IH; [|exact Hr].
  destruct (Nat.eq_dec k (S n)) as [->|]; [congruence | lia].
Qed.

Lemma match_snake_some (a b c : ascii) (s : string) :
  is_word a = true -> is_sep b = true -> is_word c = true ->
  exists r, match_snake (String a (String b (String c s))) = Some r.
Proof.
  intros Ha Hb Hc. unfold match_snake.
  eapply (backtrack_some _ 1).
  - simpl. rewrite Ha. simpl. lia.
  - simpl. rewrite Hb, Hc. simpl. reflexivity.
Qed.

Lemma snake_finds_triple (s : string) (skip : nat) :
  findall match_snake skip s = [] -> has_sep_triple (drop skip s) = false.
Proof.
  revert skip. induction s as [|a s IH]; intros skip H.
  - destruct skip; reflexivity.
  - cbn [findall] in H. destruct skip as [|skip]; [|exact (IH skip H)].
    destruct (match_snake (String a s)) as [[x len]|] eqn:E; [discriminate|].
    specialize (IH 0%nat H). simpl drop in *.
    destruct s as [|b [|c s]]; try reflexivity.
    cbn [has_sep_triple] in *. rewrite IH, orb_false_r.
    destruct (is_word a) eqn:Ha; [|reflexivity].
    destruct (is_sep b) eqn:Hb; [|reflexivity].
    destruct (is_word c) eqn:Hc; [|reflexivity].
    destruct (match_snake_some a b c s Ha Hb Hc) as (r & Hr). congruence.
Qed.

Lemma snake_matches_iff (s : string) :
  findall match_snake 0 s = [] <-> has_sep_triple s = false.
Proof.
  split; [apply (snake_finds_triple s 0) | apply snake_without_triple].
Qed.

Lemma clean_words_tuple (l : list found) (a b : string) :
  In (FTuple a b) l -> clean_words l = Raise TypeError.
Proof.
  induction l as [|f l IH]; simpl; intros Hin; [destruct Hin|].
  destruct f as [w|a' b']; [|reflexivity].
  destruct Hin as [Hf|Hin]; [discriminate|].
  simpl. rewrite (IH Hin). reflexivity.
Qed.

Lemma lower_char_lower_alnum (c : ascii) :
  is_alnum c = true -> is_lower_alnum (lower_char c) = true.
Proof.
  destruct c as [[] [] [] [] [] [] [] []]; vm_compute; auto.
Qed.

Lemma cleaned_word_chars (w : string) :
  all_chars is_lower_alnum (lower (filter_string is_alnum w)) = true.
Proof.
  unfold lower. induction w as [|c w IH]; simpl; [reflexivity|].
  destruct (is_alnum c) eqn:E; [|exact IH].
  simpl. rewrite (lower_char_lower_alnum c E). exact IH.
Qed.

Lemma clean_words_chars (l : list found) (ws : list string) (w : string) :
  clean_words l = Ok ws -> In w ws -> all_chars is_lower_alnum w = true.
Proof.
  revert ws. induction l as [|f l IH]; simpl; intros ws H Hin.
  - injection H as <-. destruct Hin.
  - apply bind_ok in H. destruct H as (stripped & Hs & H).
    apply bind_ok in H. destruct H as (rest & Hrest & H). injection H as <-.
    destruct f as [s|a b]; [|discriminate]. injection Hs as <-.
    destruct (2 <? _)%nat; [|exact (IH rest Hrest Hin)].
    destruct Hin as [<-|Hin]; [apply cleaned_word_chars | exact (IH rest Hrest Hin)].
Qed.

Lemma extract_words_raises (t : string) :
  has_sep_triple t = true -> _extract_words t = Raise TypeError.
Proof.
  intros Ht. unfold _extract_words, found_words.
  destruct (findall match_snake 0 t) as [|[a b] l] eqn:E.
  - apply snake_matches_iff in E. congruence.
  - rewrite (clean_words_tuple _ a b); [reflexivity|].
    apply in_or_app. right. apply in_or_app. right. left. reflexivity.
Qed.

(** [_extract_words] raises a [TypeError] exactly on the texts that have a
    [_] or [-] between two word characters; on every other text it returns
    a list without repetition whose words are longer than two characters
    and made of small letters and digits only. *)
Theorem extract_words_outcome (t : string) :
  (has_sep_triple t = true /\ _extract_words t = Raise TypeError) \/
  (has_sep_triple t = false /\
   exists ws, _extract_words t = Ok ws /\ List.NoDup ws /\
     forall w, In w ws ->
       (2 < String.length w)%nat /\ all_chars is_lower_alnum w = true).
Proof.
  destruct (has_sep_triple t) eqn:Ht.
  - left. split; [reflexivity | exact (extract_words_raises t Ht)].
  - right. split; [reflexivity|]. unfold _extract_words, found_words.
    rewrite (proj2 (snake_matches_iff t) Ht). simpl. rewrite app_nil_r.
    rewrite <- map_app.
    destruct (clean_words_strings (findall match_word 0 t ++ findall match_camel 0 t))
      as (ws & Hws).
    rewrite Hws. simpl. exists (py_set ws). split; [reflexivity|].
    split; [unfold py_set; apply NoDup_nodup|].
    intros w Hin. unfold py_set in Hin. apply nodup_In in Hin. split.
    + exact (clean_words_long _ ws w Hws Hin).
    + exact (clean_words_chars _ ws w Hws Hin).
Qed.

End ExtractionOutcome.

(** ** When the heuristic scores fail *)

Section HeuristicOutcome.
Import Text HeuristicMatcher.
Local Open Scope Q_scope.

Lemma extract_lowered_raises (t : string) :
  has_sep_triple t = true -> _extract_words (lower t) = Raise TypeError.
Proof.
  intros Ht. apply extract_words_raises. rewrite lower_sep_triple. exact Ht.
Qed.

Lemma name_similarity_outcome (n t : string) :
  (name_similarity_fails n t = true /\
   _calculate_name_similarity n t = Raise TypeError) \/
  (name_similarity_fails n t = false /\
   exists q, _calculate_name_similarity n t = Ok q /\ in_unit_interval q).
Proof.
  unfold name_similarity_fails.
  destruct (_calculate_name_similarity n t) as [q|x] eqn:E.
  - right. split; [|exists q; split; [reflexivity | exact (name_similarity_unit n t q E)]].
    unfold _calculate_name_similarity in E.
    destruct (is_empty n); [reflexivity|]. destruct (is_empty t); [reflexivity|].
    simpl in *. destruct (has_sep_triple n) eqn:Hn.
    + rewrite (extract_lowered_raises n Hn) in E. discriminate.
    + destruct (extract_words_succeeds n Hn) as (ws & Hws). rewrite Hws in E.
      simpl in E. destruct (has_sep_triple t) eqn:Ht; [|reflexivity].
      rewrite (extract_lowered_raises t Ht) in E. discriminate.
  - left. unfold _calculate_name_similarity in E.
    destruct (is_empty n); [discriminate|]. destruct (is_empty t); [discriminate|].
    simpl in *. destruct (has_sep_triple n) eqn:Hn.
    + rewrite (extract_lowered_raises n Hn) in E. injection E as <-. auto.
    + destruct (extract_words_succeeds n Hn) as (ws & Hws). rewrite Hws in E.
      simpl in E. destruct (has_sep_triple t) eqn:Ht.
      * rewrite (extract_lowered_raises t Ht) in E. injection E as <-. auto.
      * destruct (extract_words_succeeds t Ht) as (ws' & Hws'). rewrite Hws' in E.
        simpl in E. destruct (_ =? _)%nat; discriminate.
Qed.

Lemma heading_loop_outcome (ew : list string) (hs : list Heading) (acc : Q) :
  if existsb (fun h => has_sep_triple (heading_text h)) hs
  then heading_loop ew hs acc = Raise TypeError
  else exists q, heading_loop ew hs acc = Ok q.
Proof.
  revert acc. induction hs as [|h hs IH]; intros acc; simpl; [eauto|].
  destruct (has_sep_triple (heading_text h)) eqn:Hh; simpl.
  - rewrite (extract_lowered_raises _ Hh). reflexivity.
  - destruct (extract_words_succeeds _ Hh) as (ws & ->). simpl.
    destruct (_ && _); apply IH.
Qed.

Lemma heading_similarity_outcome (n : string) (hs : list Heading) :
  (heading_similarity_fails n hs = true /\
   _calculate_heading_similarity n hs = Raise TypeError) \/
  (heading_similarity_fails n hs = false /\
   exists q, _calculate_heading_similarity n hs = Ok q /\ in_unit_interval q).
Proof.
  unfold heading_similarity_fails, _calculate_heading_similarity.
  destruct (has_sep_triple n) eqn:Hn; simpl.
  - left. rewrite (extract_lowered_raises n Hn). auto.
  - destruct (extract_words_succeeds n Hn) as (ws & Hws). rewrite Hws. simpl.
    pose proof (heading_loop_outcome (py_set ws) hs 0) as H.
    destruct (existsb _ hs); [left; auto|].
    destruct H as (q & Hq). right. split; [reflexivity|]. exists q. split; [exact Hq|].
    exact (heading_loop_unit _ _ _ _ unit_zero Hq).
Qed.

(** The heuristic score of a pair fails, with a [TypeError], exactly when
    name similarity is computed on a name or title with a separator between
    two word characters (both being non-empty), or the doc has headings and
    the name or one heading text has such a separator.  Otherwise it
    returns a score of the unit interval with its confidence tier. *)
Theorem heuristics_outcome (e : CodeEntity) (d : DocEntity) :
  (heuristics_fail e d = true /\
   calculate_heuristics_score e d = Raise TypeError) \/
  (heuristics_fail e d = false /\
   exists h, calculate_heuristics_score e d = Ok (h, confidence_tier h) /\
             in_unit_interval h).
Proof.
  unfold heuristics_fail.
  destruct (calculate_heuristics_score e d) as [[h c]|x] eqn:E.
  - right. destruct (heuristics_score_unit e d (h, c) E) as [Hunit Htier].
    simpl in Hunit, Htier. subst c.
    split; [|exists h; auto].
    unfold calculate_heuristics_score in E.
    apply bind_ok in E. destruct E as (ns & Hns & E).
    apply bind_ok in E. destruct E as (hsc & Hhs & _).
    destruct (name_similarity_outcome (name e)
                (match title d with Some t => t | None => EmptyString end))
      as [[_ Hf]|[-> _]]; [congruence|]. simpl.
    destruct (headings d) as [|h0 hs]; [reflexivity|].
    apply bind_ok in Hhs. destruct Hhs as (q & Hq & _).
    destruct (heading_similarity_outcome (name e) (h0 :: hs)) as [[_ Hf]|[-> _]];
      [congruence | reflexivity].
  - left. unfold calculate_heuristics_score in E.
    destruct (name_similarity_outcome (name e)
                (match title d with Some t => t | None => EmptyString end))
      as [[-> Hf]|[-> (q & Hq & _)]].
    + rewrite Hf in E. injection E as <-. auto.
    + rewrite Hq in E. simpl in E.
      destruct (headings d) as [|h0 hs]; [discriminate|].
      destruct (heading_similarity_outcome (name e) (h0 :: hs))
        as [[-> Hf]|[_ (q' & Hq' & _)]].
      * rewrite Hf in E. injection E as <-. auto.
      * rewrite Hq' in E. discriminate.
Qed.

End HeuristicOutcome.

(** ** Path, signature and anchor *)

Section SignalProperties.
Import Text HeuristicMatcher.
Local Open Scope Q_scope.

Lemma ratio_one (a b : nat) : (0 < b)%nat -> (ratio a b == 1 <-> a = b).
Proof.
  intros Hb. unfold ratio, Qeq. simpl.
  assert (Hp : Z.pos (Pos.of_nat b) = Z.of_nat b).
  { rewrite <- positive_nat_Z, Nat2Pos.id; [reflexivity | lia]. }
  rewrite Hp. lia.
Qed.

Lemma ratio_zero (a b : nat) : ratio a b == 0 <-> a = 0%nat.
Proof. unfold ratio, Qeq. simpl. lia. Qed.

Lemma ratio_le (a b k : nat) : (a <= b)%nat -> ratio a k <= ratio b k.
Proof. intros H. unfold ratio, Qle. simpl. nia. Qed.

Lemma common_prefix_sym (a b : list string) : common_prefix a b = common_prefix b a.
Proof.
  revert b. induction a as [|x a IH]; intros [|y b]; simpl; try reflexivity.
  rewrite (String.eqb_sym x y). destruct (String.eqb y x); [rewrite IH|]; reflexivity.
Qed.

Lemma common_prefix_full (a b : list string) :
  common_prefix a b = Nat.max (length a) (length b) <-> a = b.
Proof.
  split.
  - revert b. induction a as [|x a IH]; intros [|y b]; simpl; intros H;
      try reflexivity; try discriminate.
    pose proof (common_prefix_le a b) as Hle.
    destruct (String.eqb x y) eqn:E; [|discriminate].
    apply String.eqb_eq in E. subst y. f_equal. apply IH. lia.
  - intros <-. rewrite Nat.max_id. induction a as [|x a IH]; simpl; [reflexivity|].
    rewrite String.eqb_refl, IH. reflexivity.
Qed.

Lemma common_prefix_none (a b : list string) :
  common_prefix a b = 0%nat <->
  a = [] \/ b = [] \/ hd EmptyString a <> hd EmptyString b.
Proof.
  destruct a as [|x a], b as [|y b]; simpl; try tauto.
  destruct (String.eqb x y) eqn:E.
  - apply String.eqb_eq in E. split; [discriminate|].
    intros [H|[H|H]]; [discriminate | discriminate | congruence].
  - apply String.eqb_neq in E. tauto.
Qed.

(** Path similarity is symmetric and lies in the unit interval.  It is 1
    exactly when the two paths have the same parts and at least one; it is
    0 exactly when one path has no part or the first parts differ. *)
Theorem path_similarity_characterised (p q : string) :
  _calculate_path_similarity p q = _calculate_path_similarity q p /\
  in_unit_interval (_calculate_path_similarity p q) /\
  (_calculate_path_similarity p q == 1 <->
     path_parts p = path_parts q /\ path_parts p <> []) /\
  (_calculate_path_similarity p q == 0 <->
     path_parts p = [] \/ path_parts q = [] \/
     hd EmptyString (path_parts p) <> hd EmptyString (path_parts q)).
Proof.
  split; [|split; [apply path_similarity_unit|]].
  - unfold _calculate_path_similarity.
    rewrite (common_prefix_sym (path_parts p)), (Nat.max_comm (length (path_parts p))).
    reflexivity.
  - unfold _calculate_path_similarity.
    destruct (0 <? _)%nat eqn:E.
    + apply Nat.ltb_lt in E. split.
      * rewrite (ratio_one _ _ E), common_prefix_full. split.
        -- intros H. split; [exact H|].
           intros Hnil. rewrite <- H, Hnil in E. simpl in E. lia.
        -- intros [H _]. exact H.
      * rewrite ratio_zero. apply common_prefix_none.
    + apply Nat.ltb_ge in E.
      assert (Hp : path_parts p = []) by (destruct (path_parts p); [reflexivity | simpl in E; lia]).
      assert (Hq : path_parts q = []) by (destruct (path_parts q); [reflexivity | simpl in E; lia]).
      split.
      * split; [discriminate | intros [_ Hne]; contradiction].
      * split; [auto | reflexivity].
Qed.

Lemma filter_length_mono {A : Type} (f g : A -> bool) (l : list A) :
  (forall x, f x = true -> g x = true) ->
  (length (List.filter f l) <= length (List.filter g l))%nat.
Proof.
  intros H. induction l as [|x l IH]; simpl; [lia|].
  destruct (f x) eqn:Ef.
  - rewrite (H x Ef). simpl. lia.
  - destruct (g x); simpl; lia.
Qed.

Lemma filter_length_all {A : Type} (f : A -> bool) (l : list A) :
  length (List.filter f l) = length l <-> forall x, In x l -> f x = true.
Proof.
  induction l as [|x l IH]; simpl; [tauto|].
  pose proof (filter_length_bound f l) as Hb.
  destruct (f x) eqn:E; simpl.
  - split.
    + intros H y [<-|Hy]; [exact E | apply IH; [lia | exact Hy]].
    + intros H. f_equal. apply IH. auto.
  - split; [lia|]. intros H. specialize (H x (or_introl eq_refl)). congruence.
Qed.

Lemma signature_similarity_names (sg : Signature) (d : DocEntity) :
  _calculate_signature_similarity sg d =
    let names :=
      match parameters sg with Some params => param_names params | None => [] end in
    if (0 <? length names)%nat
    then ratio (length (List.filter (fun p => param_in_headings p (headings d)) names))
               (length names)
    else 0.
Proof.
  unfold _calculate_signature_similarity.
  destruct (parameters sg) as [[|p0 ps]|]; reflexivity.
Qed.

Lemma filter_no_headings (names : list string) :
  List.filter (fun p => param_in_headings p []) names = [].
Proof. induction names as [|x l IH]; simpl; [reflexivity | exact IH]. Qed.

Lemma signature_similarity_no_headings (sg : Signature) (d : DocEntity) :
  headings d = [] -> _calculate_signature_similarity sg d == 0.
Proof.
  intros Hnone. rewrite signature_similarity_names. cbv zeta. rewrite Hnone.
  destruct (0 <? _)%nat; [|reflexivity].
  rewrite filter_no_headings. apply ratio_zero. reflexivity.
Qed.

(** Signature similarity lies in the unit interval.  It is 0 for a doc
    without headings and for a signature without string parameters; it is 1
    exactly when there is a string parameter and every parameter name
    occurs in some heading; and headings added to a doc never lower it. *)
Theorem signature_similarity_characterised (sg : Signature) (d d' : DocEntity)
    (more : list Heading) :
  let names :=
    match parameters sg with Some params => param_names params | None => [] end in
  in_unit_interval (_calculate_signature_similarity sg d) /\
  (headings d = [] -> _calculate_signature_similarity sg d == 0) /\
  (names = [] -> _calculate_signature_similarity sg d = 0) /\
  (_calculate_signature_similarity sg d == 1 <->
     names <> [] /\ forall p, In p names -> param_in_headings p (headings d) = true) /\
  (headings d' = (headings d ++ more)%list ->
   _calculate_signature_similarity sg d <= _calculate_signature_similarity sg d').
Proof.
  cbv zeta. split; [apply signature_similarity_unit|].
  rewrite !signature_similarity_names. cbv zeta.
  generalize (match parameters sg with
              | Some params => param_names params
              | None => []
              end).
  intros names. destruct (0 <? length names)%nat eqn:E.
  - apply Nat.ltb_lt in E.
    assert (Hne : names <> []) by (intros ->; simpl in E; lia).
    split; [|split; [|split]].
    + intros ->. rewrite filter_no_headings. apply ratio_zero. reflexivity.
    + intros Hnil. contradiction.
    + rewrite (ratio_one _ _ E), filter_length_all. tauto.
    + intros ->. apply ratio_le, filter_length_mono.
      intros p Hp. unfold param_in_headings in *. rewrite existsb_app, Hp. reflexivity.
  - apply Nat.ltb_ge in E.
    assert (Hnil : names = []) by (destruct names; [reflexivity | simpl in E; lia]).
    split; [|split; [|split]].
    + reflexivity.
    + reflexivity.
    + split; [discriminate | intros [Hne _]; contradiction].
    + intros _. apply Qle_refl.
Qed.

Lemma find_first {A : Type} (f : A -> bool) (l : list A) (x : A) :
  List.find f l = Some x ->
  exists before after, l = (before ++ x :: after)%list /\ f x = true /\
                       forall y, In y before -> f y = false.
Proof.
  induction l as [|y l IH]; simpl; [discriminate|].
  destruct (f y) eqn:E.
  - intros [= <-]. exists [], l. repeat split; [exact E | intros ? []].
  - intros H. destruct (IH H) as (before & after & -> & Hx & Hb).
    exists (y :: before), after. repeat split; [exact Hx|].
    intros z [<-|Hz]; [exact E | exact (Hb z Hz)].
Qed.

Lemma contains_empty (hay : string) : contains EmptyString hay = true.
Proof. destruct hay; reflexivity. Qed.

End SignalProperties.

(** ** The anchor of a mapping *)

Section AnchorProperties.
Import Text.

Lemma find_app_first {A : Type} (f : A -> bool) (before after : list A) (x : A) :
  (forall y, In y before -> f y = false) -> f x = true ->
  List.find f (before ++ x :: after) = Some x.
Proof.
  intros Hb Hx. induction before as [|y before IH]; simpl.
  - rewrite Hx. reflexivity.
  - rewrite (Hb y (or_introl eq_refl)). apply IH. intros z Hz. apply Hb. right. exact Hz.
Qed.

(** [_find_best_anchor] looks at the first heading that mentions the entity
    name and at no other: it returns that heading's anchor, which is [None]
    when the heading has none, even if a later heading mentions the name
    and has an anchor.  It returns [None] when no heading mentions the
    name; an empty name is mentioned by every heading. *)
Theorem best_anchor_first_mention (e : CodeEntity) (d : DocEntity) :
  (forall before h after,
      headings d = (before ++ h :: after)%list ->
      (forall y, In y before -> heading_mentions e y = false) ->
      heading_mentions e h = true ->
      _find_best_anchor e d = anchor h) /\
  ((forall h, In h (headings d) -> heading_mentions e h = false) ->
   _find_best_anchor e d = None) /\
  (forall a, _find_best_anchor e d = Some a ->
     exists before h after,
       headings d = (before ++ h :: after)%list /\
       (forall y, In y before -> heading_mentions e y = false) /\
       heading_mentions e h = true /\ anchor h = Some a) /\
  (name e = EmptyString ->
   _find_best_anchor e d = match headings d with [] => None | h :: _ => anchor h end).
Proof.
  unfold _find_best_anchor. fold (heading_mentions e).
  split; [|split; [|split]].
  - intros before h after Hd Hb Hh. rewrite Hd, (find_app_first _ before after h Hb Hh).
    reflexivity.
  - intros Hnone. destruct (List.find (heading_mentions e) (headings d)) as [h|] eqn:E;
      [|reflexivity].
    apply find_some in E. destruct E as [Hin Hh]. rewrite (Hnone h Hin) in Hh. discriminate.
  - intros a Ha. destruct (List.find (heading_mentions e) (headings d)) as [h|] eqn:E;
      [|discriminate].
    destruct (find_first _ _ _ E) as (before & after & Hd & Hh & Hb).
    exists before, h, after. auto.
  - intros Hname. destruct (headings d) as [|h hs]; [reflexivity|]. simpl.
    unfold heading_mentions. rewrite Hname. simpl. rewrite contains_empty. reflexivity.
Qed.

End AnchorProperties.

(** ** Name and heading similarity *)

Section NameSimilarity.
Import Text HeuristicMatcher.
Local Open Scope Q_scope.

Lemma lower_char_idem (c : ascii) : lower_char (lower_char c) = lower_char c.
Proof. destruct c as [[] [] [] [] [] [] [] []]; reflexivity. Qed.

Lemma lower_idem (s : string) : lower (lower s) = lower s.
Proof.
  unfold lower. induction s as [|c s IH]; simpl; [reflexivity|].
  rewrite lower_char_idem, IH. reflexivity.
Qed.

Lemma lower_is_empty (s : string) : is_empty (lower s) = is_empty s.
Proof. destruct s; reflexivity. Qed.

Lemma mem_in (w : string) (l : list string) : mem w l = true <-> In w l.
Proof.
  unfold mem. rewrite existsb_exists. split.
  - intros (x & Hx & E). apply String.eqb_eq in E. subst. exact Hx.
  - intros H. exists w. split; [exact H | apply String.eqb_refl].
Qed.

Lemma intersection_self (l : list string) : intersection l l = l.
Proof.
  unfold intersection.
  assert (H : forall l0, (forall w, In w l0 -> In w l) ->
                         List.filter (fun w => mem w l) l0 = l0).
  { induction l0 as [|x l0 IH]; simpl; intros Hin; [reflexivity|].
    rewrite (proj2 (mem_in x l) (Hin x (or_introl eq_refl))).
    f_equal. apply IH. intros w Hw. apply Hin. right. exact Hw. }
  apply H. auto.
Qed.

(** Letter case never matters: name similarity and heading similarity are
    unchanged when the name and the title are lowered first. *)
Theorem similarity_ignores_case (n t : string) (hs : list Heading) :
  _calculate_name_similarity (lower n) (lower t) = _calculate_name_similarity n t /\
  _calculate_heading_similarity (lower n) hs = _calculate_heading_similarity n hs.
Proof.
  unfold _calculate_name_similarity, _calculate_heading_similarity.
  rewrite !lower_idem, !lower_is_empty. split; reflexivity.
Qed.

(** A name from which extraction keeps at least one word has similarity 1
    with a title equal to it. *)
Theorem name_similarity_with_itself (n w : string) (ws : list string) :
  _extract_words (lower n) = Ok (w :: ws) ->
  exists q, _calculate_name_similarity n n = Ok q /\ q == 1.
Proof.
  intros H. unfold _calculate_name_similarity.
  destruct n as [|c n]; [discriminate|]. cbn [is_empty orb].
  rewrite H. cbn [bind].
  assert (Hlen : (0 < length (py_set (w :: ws)))%nat).
  { assert (Hin : In w (py_set (w :: ws))) by (apply nodup_In; left; reflexivity).
    destruct (py_set (w :: ws)); [destruct Hin | simpl; lia]. }
  destruct (length (py_set (w :: ws)) =? 0)%nat eqn:E;
    [apply Nat.eqb_eq in E; lia|].
  eexists. split; [reflexivity|].
  rewrite intersection_self. apply ratio_one; [exact Hlen | reflexivity].
Qed.

(** The overlap of the loop of [_calculate_heading_similarity]. *)
Lemma heading_loop_best (ew : list string) (hs : list Heading) (acc q : Q) :
  heading_loop ew hs acc = Ok q ->
  acc <= q /\
  (forall h hw, In h hs -> _extract_words (lower (heading_text h)) = Ok hw ->
                length ew <> 0%nat -> length (py_set hw) <> 0%nat ->
                ratio (length (intersection ew (py_set hw))) (length ew) <= q) /\
  (q = acc \/
   exists h hw, In h hs /\ _extract_words (lower (heading_text h)) = Ok hw /\
                length ew <> 0%nat /\
                q = ratio (length (intersection ew (py_set hw))) (length ew)).
Proof.
  revert acc. induction hs as [|h hs IH]; simpl; intros acc H.
  - injection H as <-. split; [apply Qle_refl|]. split; [intros ? ? []|auto].
  - apply bind_ok in H. destruct H as (hw0 & Hhw0 & H).
    destruct (negb (length ew =? 0)%nat && negb (length (py_set hw0) =? 0)%nat) eqn:E.
    + destruct (IH _ H) as (Hle & Hall & Hsome).
      apply andb_true_iff in E. destruct E as [E1 E2].
      apply negb_true_iff, Nat.eqb_neq in E1.
      set (r := ratio (length (intersection ew (py_set hw0))) (length ew)) in *.
      assert (Hmax : acc <= py_max acc r /\ r <= py_max acc r).
      { unfold py_max. destruct (Qlt_le_dec acc r); split; lra. }
      destruct Hmax as [Ha Hr]. split; [lra|]. split.
      * intros h' hw [<-|Hin] Hhw Hew Hne.
        -- rewrite Hhw0 in Hhw. injection Hhw as <-. fold r. lra.
        -- exact (Hall h' hw Hin Hhw Hew Hne).
      * destruct Hsome as [->|(h' & hw & Hin & Hhw & Hew & ->)].
        -- unfold py_max. destruct (Qlt_le_dec acc r); [|auto].
           right. exists h, hw0. auto.
        -- right. exists h', hw. auto.
    + destruct (IH _ H) as (Hle & Hall & Hsome). split; [exact Hle|]. split.
      * intros h' hw [<-|Hin] Hhw Hew Hne.
        -- rewrite Hhw0 in Hhw. injection Hhw as <-.
           apply andb_false_iff in E.
           destruct E as [E|E]; apply negb_false_iff, Nat.eqb_eq in E; contradiction.
        -- exact (Hall h' hw Hin Hhw Hew Hne).
      * destruct Hsome as [->|(h' & hw & Hin & Hhw & Hew & ->)]; [auto|].
        right. exists h', hw. auto.
Qed.

Lemma name_similarity_value (n t : string) (q : Q) :
  _calculate_name_similarity n t = Ok q ->
  q = 0 \/
  exists ew tw, _extract_words (lower n) = Ok ew /\ _extract_words (lower t) = Ok tw /\
                length (py_set ew) <> 0%nat /\
                q = ratio (length (intersection (py_set ew) (py_set tw)))
                          (length (py_set ew)).
Proof.
  unfold _calculate_name_similarity.
  destruct (is_empty n || is_empty t); [intros [= <-]; auto|].
  intros H. apply bind_ok in H. destruct H as (ew & Hew & H).
  apply bind_ok in H. destruct H as (tw & Htw & H).
  destruct (length (py_set ew) =? 0)%nat eqn:E; injection H as <-; [auto|].
  apply Nat.eqb_neq in E. right. exists ew, tw. auto.
Qed.

Lemma intersection_nil (l : list string) : intersection l [] = [].
Proof. unfold intersection. induction l as [|x l IH]; simpl; auto. Qed.

Lemma extract_words_empty : _extract_words (lower EmptyString) = Ok [].
Proof. reflexivity. Qed.

(** Heading similarity is the best name similarity over the headings: it
    is at least the name similarity of the entity name against each heading
    text, and it is 0 or reached by one of them. *)
Theorem heading_similarity_is_best_heading (n : string) (hs : list Heading) (q : Q) :
  _calculate_heading_similarity n hs = Ok q ->
  (forall h q', In h hs -> _calculate_name_similarity n (heading_text h) = Ok q' ->
                q' <= q) /\
  (q == 0 \/
   exists h q', In h hs /\ _calculate_name_similarity n (heading_text h) = Ok q' /\
                q' == q).
Proof.
  unfold _calculate_heading_similarity. intros H.
  apply bind_ok in H. destruct H as (ew & Hew & H).
  destruct (heading_loop_best _ _ _ _ H) as (H0 & Hall & Hsome). split.
  - intros h q' Hin Hq'.
    destruct (name_similarity_value _ _ _ Hq') as [->|(ew' & tw & Hew' & Htw & Hne & ->)];
      [exact H0|].
    rewrite Hew in Hew'. injection Hew' as <-.
    destruct (Nat.eq_dec (length (py_set tw)) 0%nat) as [Hz|Hnz].
    + destruct (py_set tw); [|discriminate].
      rewrite intersection_nil. simpl.
      assert (Hr : ratio 0 (length (py_set ew)) == 0) by (apply ratio_zero; reflexivity).
      lra.
    + exact (Hall h tw Hin Htw Hne Hnz).
  - destruct Hsome as [->|(h & hw & Hin & Hhw & Hne & ->)]; [left; reflexivity|].
    right. exists h.
    assert (Hn : is_empty n = false).
    { destruct n; [|reflexivity]. exfalso. apply Hne.
      rewrite extract_words_empty in Hew. injection Hew as <-. reflexivity. }
    unfold _calculate_name_similarity. rewrite Hn. cbn [orb].
    destruct (heading_text h) as [|c t] eqn:Et; cbn [is_empty].
    + exists 0. split; [exact Hin|]. split; [reflexivity|].
      rewrite extract_words_empty in Hhw. injection Hhw as <-.
      change (py_set []) with (@nil string). rewrite intersection_nil.
      symmetry. apply ratio_zero. reflexivity.
    + rewrite Hew, Hhw. cbn [bind].
      destruct (length (py_set ew) =? 0)%nat eqn:E;
        [apply Nat.eqb_eq in E; contradiction|].
      eexists. split; [exact Hin|]. split; reflexivity.
Qed.

End NameSimilarity.

(** ** Docs without headings *)

Section HeuristicCeilings.
Import HeuristicMatcher.
Local Open Scope Q_scope.

Lemma tier_below_high (h : Q) : h < 8 # 10 -> confidence_tier h <> High.
Proof.
  intros Hh. unfold confidence_tier.
  destruct (Qle_bool (8 # 10) h) eqn:E.
  - apply Qle_bool_iff in E. lra.
  - destruct (Qle_bool (5 # 10) h); discriminate.
Qed.

(** The weights are not rescaled when a signal is absent.  A doc without
    headings contributes neither heading nor signature similarity: only the
    name (weight 0.4) and the path (weight 0.2) count, so the heuristic
    score of a mapping to such a doc stays below the cut of 0.8 and its
    confidence is never high, however well name and path agree. *)
Theorem no_high_confidence_without_headings
    (cosine_similarity : list Q -> list Q -> result Q)
    (e : CodeEntity) (d : DocEntity) (request : MapRequest) (m : EntityMapping) :
  headings d = [] ->
  _calculate_mapping_score cosine_similarity e d request = Ok m ->
  heuristics_score m < 8 # 10 /\ confidence m <> High.
Proof.
  intros Hnone Hm.
  assert (Hh : heuristics_score m < 8 # 10).
  { unfold _calculate_mapping_score in Hm.
    apply bind_ok in Hm. destruct Hm as (hc & Hhc & Hm).
    apply bind_ok in Hm. destruct Hm as (es & _ & Hm). injection Hm as <-. simpl.
    destruct (use_heuristics request); [|injection Hhc as <-; reflexivity].
    unfold calculate_heuristics_score in Hhc. rewrite Hnone in Hhc.
    apply bind_ok in Hhc. destruct Hhc as (n & Hn & Hhc). simpl in Hhc.
    injection Hhc as <-. simpl.
    destruct (name_similarity_unit _ _ _ Hn) as [Hn0 Hn1].
    destruct (path_similarity_unit (path e) (doc_path d)) as [Hp0 Hp1].
    set (p := _calculate_path_similarity (path e) (doc_path d)) in *.
    destruct (signature e) as [sg|]; [destruct (_ && _)|];
      unfold weighted_sum; simpl;
      try rewrite (signature_similarity_no_headings sg d Hnone); lra. }
  split; [exact Hh|].
  rewrite (pf_confidence _ _ _ (score_pair_facts cosine_similarity e d request m Hm)).
  apply tier_below_high, Hh.
Qed.

End HeuristicCeilings.

(** ** More on the mapping engine *)

Section MoreEngine.

Variable openai_embedding : nat -> string -> option (list Q).
Variable cosine_similarity : list Q -> list Q -> result Q.

Local Abbreviation score_pair := (_calculate_mapping_score cosine_similarity).
Local Abbreviation map_entity := (_map_entity_to_docs cosine_similarity).
Local Abbreviation candidates := (candidate_mappings cosine_similarity).
Local Abbreviation loop := (entity_loop cosine_similarity).
Local Abbreviation run := (generate_mappings openai_embedding cosine_similarity).
Local Abbreviation embed := (generate_embedding openai_embedding).

Local Open Scope Q_scope.

(** *** What truncation drops *)

Lemma insert_by_score_perm (m : EntityMapping) (l : list EntityMapping) :
  Permutation (m :: l) (insert_by_score m l).
Proof.
  induction l as [|x l IH]; simpl; [reflexivity|].
  destruct (Qlt_le_dec (score m) (score x)); [|reflexivity].
  rewrite perm_swap. apply perm_skip, IH.
Qed.

Lemma sort_by_score_perm (l : list EntityMapping) : Permutation l (sort_by_score l).
Proof.
  induction l as [|m l IH]; simpl; [reflexivity|].
  rewrite <- insert_by_score_perm. apply perm_skip, IH.
Qed.

Lemma sorted_split (k : nat) (l : list EntityMapping) (x y : EntityMapping) :
  StronglySorted by_score_desc l ->
  In x (firstn k l) -> In y (skipn k l) -> score y <= score x.
Proof.
  intros H. revert k. induction H as [|a l Hl IH Ha]; intros k Hx Hy.
  - destruct k; destruct Hx.
  - destruct k as [|k]; [destruct Hx|]. simpl in Hx, Hy.
    destruct Hx as [<-|Hx]; [|exact (IH k Hx Hy)].
    apply (proj1 (List.Forall_forall _ _) Ha).
    rewrite <- (firstn_skipn k l). apply in_or_app. right. exact Hy.
Qed.

Lemma slice_to_firstn {A : Type} (n : Z) (l : list A) :
  exists k, slice_to n l = firstn k l /\
            ((Z.of_nat (length l) <= n)%Z -> (length l <= k)%nat).
Proof.
  unfold slice_to. destruct (n <? 0)%Z eqn:E; eexists; split; try reflexivity; lia.
Qed.

(** What the cap removes.  The mappings returned for an entity, together
    with the dropped ones, are exactly the scored docs that reached the
    threshold; every dropped one scores no more than every returned one;
    and nothing is dropped when the cap is at least the number of
    candidates. *)
Theorem best_candidates_kept (e : CodeEntity) (docs : list DocEntity)
    (request : MapRequest) (ms : list EntityMapping) :
  map_entity e docs request = Ok ms ->
  exists scored cs dropped,
    Forall2 (fun d m => score_pair e d request = Ok m) docs scored /\
    cs = List.filter (fun m => Qle_bool (min_score_threshold request) (score m)) scored /\
    Permutation cs (ms ++ dropped) /\
    (forall m c, In m ms -> In c dropped -> score c <= score m) /\
    ((Z.of_nat (length cs) <= max_mappings_per_entity request)%Z -> dropped = []).
Proof.
  unfold _map_entity_to_docs. intros H.
  apply bind_ok in H. destruct H as (cs & Hcs & H). injection H as <-.
  destruct (slice_to_firstn (max_mappings_per_entity request) (sort_by_score cs))
    as (k & -> & Hk).
  destruct (candidate_mappings_scored cosine_similarity e docs request cs Hcs)
    as (scored & Hscored & Hfilter).
  exists scored, cs, (skipn k (sort_by_score cs)).
  split; [exact Hscored|]. split; [exact Hfilter|]. split; [|split].
  - rewrite firstn_skipn. apply sort_by_score_perm.
  - intros m c Hm Hc. exact (sorted_split k _ m c (sort_by_score_sorted cs) Hm Hc).
  - intros Hcap. apply skipn_all2. apply Hk.
    rewrite <- (Permutation_length (sort_by_score_perm cs)). exact Hcap.
Qed.


(** *** The shape of the result *)

Lemma primed_from_refl (es : list CodeEntity) : Forall2 primed_from es es.
Proof. induction es; constructor; [split; auto | assumption]. Qed.

Lemma doc_primed_from_refl (ds : list DocEntity) : Forall2 doc_primed_from ds ds.
Proof. induction ds; constructor; [split; auto | assumption]. Qed.

Lemma run_primes (g : EmbeddingGenerator) (es : list CodeEntity)
    (docs : list DocEntity) (request : MapRequest) :
  exists es' docs',
    Forall2 primed_from es es' /\ Forall2 doc_primed_from docs docs' /\
    (use_embeddings request = false -> es' = es /\ docs' = docs) /\
    fst (run g es docs request) = loop es' docs' request [].
Proof.
  unfold generate_mappings. destruct (use_embeddings request).
  - unfold _generate_embeddings.
    pose proof (embed_entities_primed openai_embedding g es) as Hes.
    destruct (embed_entities openai_embedding g es) as [es' g1].
    pose proof (embed_docs_primed openai_embedding g1 docs) as Hds.
    destruct (embed_docs openai_embedding g1 docs) as [docs' g2].
    exists es', docs'. simpl in *. repeat split; auto; discriminate.
  - exists es, docs. simpl.
    repeat split; auto using primed_from_refl, doc_primed_from_refl.
Qed.

Lemma loop_shape (es : list CodeEntity) (docs : list DocEntity)
    (request : MapRequest) (acc ms : list EntityMapping) :
  loop es docs request acc = Ok ms ->
  exists results,
    Forall2 (fun e r => map_entity e docs request = Ok r)
            (firstn (length results) es) results /\
    ms = (acc ++ concat results)%list /\
    ((length results = length es /\
      Forall (fun r => (Z.of_nat (length r) < max_mappings_per_entity request)%Z)
             results) \/
     exists init r,
       results = (init ++ [r])%list /\
       Forall (fun r => (Z.of_nat (length r) < max_mappings_per_entity request)%Z)
              init /\
       (max_mappings_per_entity request <= Z.of_nat (length r))%Z).
Proof.
  revert acc. induction es as [|e es IH]; simpl; intros acc H.
  - injection H as <-. exists []. simpl. rewrite app_nil_r.
    split; [constructor|]. split; [reflexivity|]. left. split; [reflexivity | constructor].
  - apply bind_ok in H. destruct H as (r & Hr & H).
    destruct (_ <=? _)%Z eqn:E.
    + injection H as <-. apply Z.leb_le in E. exists [r]. simpl. rewrite app_nil_r.
      split; [repeat constructor; exact Hr|]. split; [reflexivity|].
      right. exists [], r. repeat split; [constructor | exact E].
    + apply Z.leb_gt in E. destruct (IH _ H) as (results & Hall & -> & Hend).
      exists (r :: results). simpl.
      split; [constructor; assumption|]. split; [rewrite app_assoc; reflexivity|].
      destruct Hend as [[Hlen Hsmall]|(init & r' & -> & Hsmall & Hbig)].
      * left. split; [rewrite Hlen; reflexivity | constructor; assumption].
      * right. exists (r :: init), r'. repeat split; [constructor; assumption | exact Hbig].
Qed.

(** [generate_mappings] returns the lists of [_map_entity_to_docs]
    one after the other, in the order of the entities, for a leading part
    of them: either all entities, each with fewer mappings than the cap, or
    the entities up to and including the first whose list reaches the
    cap.  The entities and docs scored are the caller's, with vectors
    filled in where they were missing. *)
Theorem generate_mappings_shape (g : EmbeddingGenerator) (es : list CodeEntity)
    (docs : list DocEntity) (request : MapRequest) (ms : list EntityMapping) :
  fst (run g es docs request) = Ok ms ->
  exists es' docs' results,
    Forall2 primed_from es es' /\ Forall2 doc_primed_from docs docs' /\
    Forall2 (fun e r => map_entity e docs' request = Ok r)
            (firstn (length results) es') results /\
    ms = concat results /\
    ((length results = length es /\
      Forall (fun r => (Z.of_nat (length r) < max_mappings_per_entity request)%Z)
             results) \/
     exists init r,
       results = (init ++ [r])%list /\
       Forall (fun r => (Z.of_nat (length r) < max_mappings_per_entity request)%Z)
              init /\
       (max_mappings_per_entity request <= Z.of_nat (length r))%Z).
Proof.
  intros H. destruct (run_primes g es docs request) as (es' & docs' & Hes & Hds & _ & Hrun).
  rewrite Hrun in H. destruct (loop_shape _ _ _ _ _ H) as (results & Hall & -> & Hend).
  exists es', docs', results. repeat split; auto.
  rewrite (Forall2_length _ _ _ Hes). exact Hend.
Qed.


(** *** Size of the result, and caps of zero or less *)

Lemma slice_to_length {A : Type} (n : Z) (l : list A) :
  (0 <= n)%Z -> (Z.of_nat (length (slice_to n l)) <= n)%Z.
Proof.
  intros Hn. unfold slice_to. destruct (n <? 0)%Z eqn:E; [lia|].
  pose proof (firstn_le_length (Z.to_nat n) l). lia.
Qed.

Lemma map_entity_length (e : CodeEntity) (docs : list DocEntity)
    (request : MapRequest) (r : list EntityMapping) :
  (0 <= max_mappings_per_entity request)%Z ->
  map_entity e docs request = Ok r ->
  (Z.of_nat (length r) <= max_mappings_per_entity request)%Z.
Proof.
  intros Hcap H. unfold _map_entity_to_docs in H.
  apply bind_ok in H. destruct H as (cs & _ & H). injection H as <-.
  apply slice_to_length, Hcap.
Qed.

Lemma loop_length (es : list CodeEntity) (docs : list DocEntity)
    (request : MapRequest) (acc ms : list EntityMapping) :
  (0 <= max_mappings_per_entity request)%Z ->
  loop es docs request acc = Ok ms ->
  (Z.of_nat (length ms) <=
   Z.of_nat (length acc) + max_mappings_per_entity request * Z.of_nat (length es))%Z.
Proof.
  intros Hcap. revert acc. induction es as [|e es IH]; simpl length; intros acc H.
  - simpl in H. injection H as <-. lia.
  - simpl in H. apply bind_ok in H. destruct H as (r & Hr & H).
    pose proof (map_entity_length e docs request r Hcap Hr) as Hlen.
    destruct (_ <=? _)%Z.
    + injection H as <-. rewrite length_app. nia.
    + specialize (IH _ H). rewrite length_app in IH. nia.
Qed.

(** For a non-negative cap, [generate_mappings] returns at most
    [max_mappings_per_entity] mappings per entity of the request. *)
Theorem mappings_total_bounded (g : EmbeddingGenerator) (es : list CodeEntity)
    (docs : list DocEntity) (request : MapRequest) (ms : list EntityMapping) :
  (0 <= max_mappings_per_entity request)%Z ->
  fst (run g es docs request) = Ok ms ->
  (Z.of_nat (length ms) <= max_mappings_per_entity request * Z.of_nat (length es))%Z.
Proof.
  intros Hcap H.
  destruct (run_primes g es docs request) as (es' & docs' & Hes & _ & _ & Hrun).
  rewrite Hrun in H. pose proof (loop_length _ _ _ _ _ Hcap H) as Hlen.
  rewrite (Forall2_length _ _ _ Hes). simpl in Hlen. lia.
Qed.

(** With a cap of zero or less the test after the first entity always
    succeeds: only the first entity of the request is scored, and the
    result is its list alone, which is empty for a cap of zero and lacks
    its lowest-scoring candidates for a negative cap. *)
Theorem nonpositive_cap_scores_one_entity (g : EmbeddingGenerator)
    (e : CodeEntity) (es : list CodeEntity) (docs : list DocEntity)
    (request : MapRequest) :
  (max_mappings_per_entity request <= 0)%Z ->
  exists e' docs',
    primed_from e e' /\ Forall2 doc_primed_from docs docs' /\
    fst (run g (e :: es) docs request) = map_entity e' docs' request /\
    (max_mappings_per_entity request = 0%Z ->
     forall ms, fst (run g (e :: es) docs request) = Ok ms -> ms = []).
Proof.
  intros Hcap.
  destruct (run_primes g (e :: es) docs request) as (es' & docs' & Hes & Hds & _ & Hrun).
  inversion Hes as [|e0 e' l l' He Hrest]; subst.
  assert (Hloop : loop (e' :: l') docs' request [] = map_entity e' docs' request).
  { simpl. destruct (map_entity e' docs' request) as [r|x]; [|reflexivity]. simpl.
    destruct (_ <=? _)%Z eqn:E; [reflexivity|]. apply Z.leb_gt in E. lia. }
  exists e', docs'. repeat split; try assumption; try apply He.
  - rewrite Hrun. exact Hloop.
  - intros Hzero ms Hms. rewrite Hrun, Hloop in Hms.
    unfold _map_entity_to_docs in Hms.
    apply bind_ok in Hms. destruct Hms as (cs & _ & Hms). injection Hms as <-.
    rewrite Hzero. reflexivity.
Qed.

(** *** Where the fields of a mapping come from *)

Lemma forall2_in_r {A B : Type} (R : A -> B -> Prop) (l : list A) (l' : list B)
    (y : B) :
  Forall2 R l l' -> In y l' -> exists x, In x l /\ R x y.
Proof.
  induction 1 as [|a b l l' Hab Hl IH]; simpl; intros Hin; [destruct Hin|].
  destruct Hin as [<-|Hin].
  - exists a. auto.
  - destruct (IH Hin) as (x & ? & ?). exists x. auto.
Qed.

Lemma score_pair_fields (e : CodeEntity) (d : DocEntity) (request : MapRequest)
    (m : EntityMapping) :
  score_pair e d request = Ok m ->
  entity_id m = id e /\ doc_id m = doc_id_of d /\
  mapping_project_id m = project_id e /\
  mapping_anchor m = _find_best_anchor e d /\
  metadata m = (kind e, lang e, title d) /\
  mapping_id m = id e +:+ ":" +:+ doc_id_of d /\ manual_override m = false.
Proof.
  unfold _calculate_mapping_score. intros H.
  apply bind_ok in H. destruct H as (hc & _ & H).
  apply bind_ok in H. destruct H as (es & _ & H).
  injection H as <-. simpl. repeat split.
Qed.

(** Every mapping returned by [generate_mappings] links one entity of the
    request to one doc of the request: it carries that entity's id,
    project, kind and language, that doc's id and title, the anchor that
    [_find_best_anchor] finds for the two, the id made of both ids, and
    [manual_override] unset. *)
Theorem mappings_link_supplied_items (g : EmbeddingGenerator)
    (es : list CodeEntity) (docs : list DocEntity) (request : MapRequest)
    (ms : list EntityMapping) (m : EntityMapping) :
  fst (run g es docs request) = Ok ms -> In m ms ->
  exists e d,
    In e es /\ In d docs /\
    entity_id m = id e /\ doc_id m = doc_id_of d /\
    mapping_project_id m = project_id e /\
    mapping_anchor m = _find_best_anchor e d /\
    metadata m = (kind e, lang e, title d) /\
    mapping_id m = id e +:+ ":" +:+ doc_id_of d /\ manual_override m = false.
Proof.
  intros H Hin.
  destruct (run_primes g es docs request) as (es' & docs' & Hes & Hds & _ & Hrun).
  rewrite Hrun in H.
  destruct (entity_loop_in cosine_similarity es' docs' request [] ms m H Hin)
    as [[]|(e' & per & He' & Hper & Hm)].
  destruct (map_entity_in cosine_similarity e' docs' request per m Hper Hm)
    as (d' & Hd' & Hscore & _).
  destruct (forall2_in_r _ _ _ _ Hes He') as (e & He & Hee & _).
  destruct (forall2_in_r _ _ _ _ Hds Hd') as (d & Hd & Hdd & _).
  destruct (score_pair_fields e' d' request m Hscore)
    as (H1 & H2 & H3 & H4 & H5 & H6 & H7).
  exists e, d. split; [exact He|]. split; [exact Hd|].
  assert (Ha : _find_best_anchor e' d' = _find_best_anchor e d).
  { change (_find_best_anchor (without_embedding e') (doc_without_embedding d') =
            _find_best_anchor (without_embedding e) (doc_without_embedding d)).
    rewrite Hee, Hdd. reflexivity. }
  rewrite H1, H2, H3, H4, H5, H6, H7, Ha.
  pose proof (f_equal id Hee) as Eid. pose proof (f_equal project_id Hee) as Eproj.
  pose proof (f_equal kind Hee) as Ekind. pose proof (f_equal lang Hee) as Elang.
  pose proof (f_equal doc_id_of Hdd) as Edoc. pose proof (f_equal title Hdd) as Etitle.
  simpl in *. rewrite Eid, Eproj, Ekind, Elang, Edoc, Etitle. repeat split.
Qed.


(** *** Vectors when embeddings are switched off *)

Lemma score_pair_stripped (e : CodeEntity) (d : DocEntity) (request : MapRequest) :
  use_embeddings request = false ->
  score_pair e d request =
  score_pair (without_embedding e) (doc_without_embedding d) request.
Proof.
  intros Hoff. unfold _calculate_mapping_score. rewrite Hoff.
  destruct (embedding e) as [[|x u]|], (doc_embedding d) as [[|y v]|]; reflexivity.
Qed.

Lemma candidates_stripped (e : CodeEntity) (docs : list DocEntity)
    (request : MapRequest) :
  use_embeddings request = false ->
  candidates e docs request =
  candidates (without_embedding e) (map doc_without_embedding docs) request.
Proof.
  intros Hoff. induction docs as [|d docs IH]; simpl; [reflexivity|].
  rewrite (score_pair_stripped e d request Hoff), IH. reflexivity.
Qed.

Lemma loop_stripped (es : list CodeEntity) (docs : list DocEntity)
    (request : MapRequest) (acc : list EntityMapping) :
  use_embeddings request = false ->
  loop es docs request acc =
  loop (map without_embedding es) (map doc_without_embedding docs) request acc.
Proof.
  intros Hoff. revert acc. induction es as [|e es IH]; intros acc; simpl; [reflexivity|].
  unfold _map_entity_to_docs. rewrite (candidates_stripped e docs request Hoff).
  destruct (candidates _ _ _) as [cs|x]; simpl; [|reflexivity].
  destruct (_ <=? _)%Z; [reflexivity | apply IH].
Qed.

(** With [use_embeddings] off the generator is left as it was, and vectors
    attached to the entities and docs play no part: the result is the one
    obtained from the same items without their vectors. *)
Theorem disabled_embeddings_are_ignored (g g' : EmbeddingGenerator)
    (es : list CodeEntity) (docs : list DocEntity) (request : MapRequest) :
  use_embeddings request = false ->
  snd (run g es docs request) = g /\
  fst (run g es docs request) =
  fst (run g' (map without_embedding es) (map doc_without_embedding docs) request).
Proof.
  intros Hoff. unfold generate_mappings. rewrite Hoff. simpl.
  split; [reflexivity | apply loop_stripped, Hoff].
Qed.

(** *** Priming the vectors *)

Lemma embed_entities_keeps (g : EmbeddingGenerator) (items : list CodeEntity)
    (k : string) (v : list Q) :
  embedding_cache g !! k = Some v ->
  embedding_cache (snd (embed_entities openai_embedding g items)) !! k = Some v.
Proof.
  revert g. induction items as [|e items IH]; intros g Hk; simpl; [exact Hk|].
  destruct (truthy (embedding e)).
  - specialize (IH g Hk). destruct (embed_entities openai_embedding g items). exact IH.
  - pose proof (embed_keeps openai_embedding g (_entity_to_text e) k v Hk) as H1.
    destruct (embed g (_entity_to_text e)) as [v1 g1]. simpl in H1.
    specialize (IH g1 H1). destruct (embed_entities openai_embedding g1 items). exact IH.
Qed.

Lemma embed_docs_keeps (g : EmbeddingGenerator) (items : list DocEntity)
    (k : string) (v : list Q) :
  embedding_cache g !! k = Some v ->
  embedding_cache (snd (embed_docs openai_embedding g items)) !! k = Some v.
Proof.
  revert g. induction items as [|d items IH]; intros g Hk; simpl; [exact Hk|].
  destruct (truthy (doc_embedding d)).
  - specialize (IH g Hk). destruct (embed_docs openai_embedding g items). exact IH.
  - pose proof (embed_keeps openai_embedding g (_doc_to_text d) k v Hk) as H1.
    destruct (embed g (_doc_to_text d)) as [v1 g1]. simpl in H1.
    specialize (IH g1 H1). destruct (embed_docs openai_embedding g1 items). exact IH.
Qed.

Lemma embed_entities_cached (g : EmbeddingGenerator) (items : list CodeEntity) :
  Forall2
    (fun e e' =>
       truthy (embedding e) = false ->
       exists v, embedding e' = Some v /\
                 embedding_cache (snd (embed_entities openai_embedding g items))
                   !! _get_cache_key (_entity_to_text e) = Some v)
    items (fst (embed_entities openai_embedding g items)).
Proof.
  revert g. induction items as [|e items IH]; intros g; simpl; [constructor|].
  destruct (truthy (embedding e)) eqn:E.
  - specialize (IH g). destruct (embed_entities openai_embedding g items) as [rest g'].
    simpl in *. constructor; [intros Hf; congruence | exact IH].
  - pose proof (embed_stores openai_embedding g (_entity_to_text e)) as Hs.
    destruct (embed g (_entity_to_text e)) as [v g1]. simpl in Hs.
    specialize (IH g1).
    pose proof (embed_entities_keeps g1 items _ _ Hs) as Hk.
    destruct (embed_entities openai_embedding g1 items) as [rest g'].
    simpl in *. constructor; [|exact IH]. intros _. exists v. auto.
Qed.

Lemma embed_docs_cached (g : EmbeddingGenerator) (items : list DocEntity) :
  Forall2
    (fun d d' =>
       truthy (doc_embedding d) = false ->
       exists v, doc_embedding d' = Some v /\
                 embedding_cache (snd (embed_docs openai_embedding g items))
                   !! _get_cache_key (_doc_to_text d) = Some v)
    items (fst (embed_docs openai_embedding g items)).
Proof.
  revert g. induction items as [|d items IH]; intros g; simpl; [constructor|].
  destruct (truthy (doc_embedding d)) eqn:E.
  - specialize (IH g). destruct (embed_docs openai_embedding g items) as [rest g'].
    simpl in *. constructor; [intros Hf; congruence | exact IH].
  - pose proof (embed_stores openai_embedding g (_doc_to_text d)) as Hs.
    destruct (embed g (_doc_to_text d)) as [v g1]. simpl in Hs.
    specialize (IH g1).
    pose proof (embed_docs_keeps g1 items _ _ Hs) as Hk.
    destruct (embed_docs openai_embedding g1 items) as [rest g'].
    simpl in *. constructor; [|exact IH]. intros _. exists v. auto.
Qed.

Lemma forall2_and {A B : Type} (P Q : A -> B -> Prop) (l : list A) (l' : list B) :
  Forall2 P l l' -> Forall2 Q l l' -> Forall2 (fun a b => P a b /\ Q a b) l l'.
Proof.
  induction 1; intros H2; inversion H2; subst; constructor; auto.
Qed.

Lemma forall2_impl {A B : Type} (P Q : A -> B -> Prop) (l : list A) (l' : list B) :
  (forall a b, P a b -> Q a b) -> Forall2 P l l' -> Forall2 Q l l'.
Proof. intros H. induction 1; constructor; auto. Qed.

(** [_generate_embeddings] keeps the items in order, changes nothing but
    missing vectors, and gives every item without a vector the vector that
    the cache holds for its text when the pass ends: items with the same
    text get the same vector, whatever the service answers in between. *)
Theorem priming_shares_vectors (g : EmbeddingGenerator) (es : list CodeEntity)
    (docs : list DocEntity) :
  let '(es', docs', g') := _generate_embeddings openai_embedding g es docs in
  Forall2 (fun e e' =>
             primed_from e e' /\
             (truthy (embedding e) = false ->
              embedding e' = embedding_cache g' !! _get_cache_key (_entity_to_text e)))
          es es' /\
  Forall2 (fun d d' =>
             doc_primed_from d d' /\
             (truthy (doc_embedding d) = false ->
              doc_embedding d' = embedding_cache g' !! _get_cache_key (_doc_to_text d)))
          docs docs'.
Proof.
  unfold _generate_embeddings.
  pose proof (embed_entities_primed openai_embedding g es) as Hes.
  pose proof (embed_entities_cached g es) as Hec.
  destruct (embed_entities openai_embedding g es) as [es' g1].
  pose proof (embed_docs_primed openai_embedding g1 docs) as Hds.
  pose proof (embed_docs_cached g1 docs) as Hdc.
  pose proof (fun k v => embed_docs_keeps g1 docs k v) as Hkeep.
  destruct (embed_docs openai_embedding g1 docs) as [docs' g2].
  simpl in *. split.
  - apply forall2_and; [exact Hes|].
    eapply forall2_impl; [|exact Hec]. intros e e' H Hno. simpl in H.
    destruct (H Hno) as (v & -> & Hv). symmetry. apply Hkeep, Hv.
  - apply forall2_and; [exact Hds|].
    eapply forall2_impl; [|exact Hdc]. intros d d' H Hno. simpl in H.
    destruct (H Hno) as (v & -> & Hv). symmetry. exact Hv.
Qed.


(** *** Calls to the embedding service *)

Lemma embed_requests (g : EmbeddingGenerator) (t : string) :
  use_openai (snd (embed g t)) = use_openai g /\
  (requests_sent g <= requests_sent (snd (embed g t)) <= S (requests_sent g))%nat /\
  (use_openai g = false -> requests_sent (snd (embed g t)) = requests_sent g).
Proof.
  unfold generate_embedding.
  destruct (embedding_cache g !! _get_cache_key t); simpl.
  - repeat split; lia.
  - destruct (use_openai g); repeat split; try lia; discriminate.
Qed.

Lemma embed_entities_requests (g : EmbeddingGenerator) (items : list CodeEntity) :
  use_openai (snd (embed_entities openai_embedding g items)) = use_openai g /\
  (requests_sent g <= requests_sent (snd (embed_entities openai_embedding g items))
   <= requests_sent g + vectorless items)%nat /\
  (use_openai g = false ->
   requests_sent (snd (embed_entities openai_embedding g items)) = requests_sent g).
Proof.
  unfold vectorless. revert g. induction items as [|e items IH]; intros g; simpl.
  - repeat split; lia.
  - destruct (truthy (embedding e)); simpl.
    + specialize (IH g). destruct (embed_entities openai_embedding g items). exact IH.
    + destruct (embed_requests g (_entity_to_text e)) as (Hu & Hr & Hoff).
      destruct (embed g (_entity_to_text e)) as [v g1]. simpl in *.
      destruct (IH g1) as (Hu' & Hr' & Hoff').
      destruct (embed_entities openai_embedding g1 items) as [rest g']. simpl in *.
      repeat split; try lia; [congruence|].
      intros H. rewrite Hoff' by congruence. auto.
Qed.

Lemma embed_docs_requests (g : EmbeddingGenerator) (items : list DocEntity) :
  use_openai (snd (embed_docs openai_embedding g items)) = use_openai g /\
  (requests_sent g <= requests_sent (snd (embed_docs openai_embedding g items))
   <= requests_sent g + vectorless_docs items)%nat /\
  (use_openai g = false ->
   requests_sent (snd (embed_docs openai_embedding g items)) = requests_sent g).
Proof.
  unfold vectorless_docs. revert g. induction items as [|d items IH]; intros g; simpl.
  - repeat split; lia.
  - destruct (truthy (doc_embedding d)); simpl.
    + specialize (IH g). destruct (embed_docs openai_embedding g items). exact IH.
    + destruct (embed_requests g (_doc_to_text d)) as (Hu & Hr & Hoff).
      destruct (embed g (_doc_to_text d)) as [v g1]. simpl in *.
      destruct (IH g1) as (Hu' & Hr' & Hoff').
      destruct (embed_docs openai_embedding g1 items) as [rest g']. simpl in *.
      repeat split; try lia; [congruence|].
      intros H. rewrite Hoff' by congruence. auto.
Qed.

(** One request of [generate_mappings] calls the embedding service at most
    once per entity and doc that came without a vector, and not at all
    when embeddings are switched off or no service is configured; it never
    removes or replaces an entry of the cache, and never changes whether
    the service is used. *)
Theorem embedding_requests_bounded (g : EmbeddingGenerator) (es : list CodeEntity)
    (docs : list DocEntity) (request : MapRequest) :
  let g' := snd (run g es docs request) in
  use_openai g' = use_openai g /\
  (requests_sent g <= requests_sent g'
   <= requests_sent g + vectorless es + vectorless_docs docs)%nat /\
  (use_openai g = false \/ use_embeddings request = false ->
   requests_sent g' = requests_sent g) /\
  (forall k v, embedding_cache g !! k = Some v -> embedding_cache g' !! k = Some v).
Proof.
  cbv zeta. unfold generate_mappings. destruct (use_embeddings request).
  - unfold _generate_embeddings.
    destruct (embed_entities_requests g es) as (Hu1 & Hr1 & Hoff1).
    pose proof (fun k v => embed_entities_keeps g es k v) as Hk1.
    destruct (embed_entities openai_embedding g es) as [es' g1]. simpl in *.
    destruct (embed_docs_requests g1 docs) as (Hu2 & Hr2 & Hoff2).
    pose proof (fun k v => embed_docs_keeps g1 docs k v) as Hk2.
    destruct (embed_docs openai_embedding g1 docs) as [docs' g2]. simpl in *.
    repeat split; try lia; [congruence | | auto].
    intros [H|H]; [|discriminate]. rewrite Hoff2 by congruence. auto.
  - simpl. repeat split; auto; lia.
Qed.

(** *** The texts that are embedded *)

Lemma firstn_map_text (n : nat) (hs : list Heading) :
  map heading_text (firstn n hs) = firstn n (map heading_text hs).
Proof.
  revert hs. induction n as [|n IH]; intros [|h hs]; simpl; try reflexivity.
  rewrite IH. reflexivity.
Qed.

Lemma doc_text_parts (d : DocEntity) :
  _doc_to_text d =
    Text.join ". "
      (["Title: " +:+ match title d with
                      | Some (String c t) => String c t
                      | _ => "Untitled"
                      end;
        "Path: " +:+ doc_path d] ++
       match firstn 5 (map heading_text (headings d)) with
       | [] => []
       | ts => ["Headings: " +:+ Text.join ", " ts]
       end)%list.
Proof.
  unfold _doc_to_text. destruct (headings d) as [|h hs]; [reflexivity|].
  rewrite <- firstn_map_text. reflexivity.
Qed.

(** The text embedded for a doc is made of its title, its path and the
    texts of its first five headings, and of nothing else: docs that agree
    on these have the same text, hence the same cache key. *)
Theorem doc_text_reads_five_headings (d d' : DocEntity) :
  title d = title d' -> doc_path d = doc_path d' ->
  firstn 5 (map heading_text (headings d)) = firstn 5 (map heading_text (headings d')) ->
  _doc_to_text d = _doc_to_text d' /\
  _get_cache_key (_doc_to_text d) = _get_cache_key (_doc_to_text d').
Proof.
  intros Ht Hp Hh.
  assert (H : _doc_to_text d = _doc_to_text d'); [|split; [exact H | rewrite H; reflexivity]].
  rewrite !doc_text_parts, Ht, Hp, Hh. reflexivity.
Qed.

(** The fallback vector is the sixteen bytes of the digest, rescaled and
    repeated: it has period 16. *)
Theorem fallback_vector_has_period_16 (t : string) (i : nat) :
  (i + 16 < 1536)%nat ->
  nth i (_generate_mock_embedding t) 0 =
    normalize_byte (nth (i mod 16) (MD5.digest (MD5.encode t)) 0%Z) /\
  nth (i + 16) (_generate_mock_embedding t) 0 = nth i (_generate_mock_embedding t) 0.
Proof.
  intros Hi. unfold _generate_mock_embedding.
  assert (Hnth : forall j, (j < 1536)%nat ->
            nth j (map (fun i0 => normalize_byte
                          (nth (i0 mod length (MD5.digest (MD5.encode t)))
                               (MD5.digest (MD5.encode t)) 0%Z)) (seq 0 1536)) 0
            = normalize_byte (nth (j mod 16) (MD5.digest (MD5.encode t)) 0%Z)).
  { intros j Hj.
    rewrite (nth_indep _ 0 (normalize_byte
               (nth (0 mod length (MD5.digest (MD5.encode t)))
                    (MD5.digest (MD5.encode t)) 0%Z)))
      by (rewrite length_map, length_seq; exact Hj).
    rewrite (map_nth (fun i0 => normalize_byte
               (nth (i0 mod length (MD5.digest (MD5.encode t)))
                    (MD5.digest (MD5.encode t)) 0%Z)) (seq 0 1536) 0%nat j).
    rewrite seq_nth by exact Hj. rewrite digest_length. reflexivity. }
  rewrite !Hnth by lia. split; [reflexivity|].
  replace ((i + 16) mod 16)%nat with (i mod 16)%nat; [reflexivity|].
  rewrite <- (Nat.Div0.add_mod_idemp_r i 16 16). rewrite Nat.Div0.mod_same, Nat.add_0_r.
  reflexivity.
Qed.


(** *** The worker on its stand-in data *)

Lemma loop_all_below (es : list CodeEntity) (docs : list DocEntity)
    (request : MapRequest) :
  (forall e d, In e es -> In d docs ->
     exists m, score_pair e d request = Ok m /\ score m < min_score_threshold request) ->
  loop es docs request [] = Ok [].
Proof.
  intros Hall.
  assert (Hcs : forall e, In e es -> candidates e docs request = Ok []).
  { intros e He.
    assert (H : forall ds, (forall d, In d ds -> In d docs) ->
                           candidates e ds request = Ok []).
    { induction ds as [|d ds IH]; intros Hsub; simpl; [reflexivity|].
      destruct (Hall e d He (Hsub d (or_introl eq_refl))) as (m & -> & Hm).
      simpl. rewrite IH by (intros d' Hd'; apply Hsub; right; exact Hd'). simpl.
      destruct (Qle_bool (min_score_threshold request) (score m)) eqn:E; [|reflexivity].
      apply Qle_bool_iff in E. exfalso. lra. }
    apply H. auto. }
  assert (H : forall l, (forall e, In e l -> In e es) -> loop l docs request [] = Ok []).
  { induction l as [|e l IH]; intros Hsub; simpl; [reflexivity|].
    unfold _map_entity_to_docs. rewrite (Hcs e (Hsub e (or_introl eq_refl))). simpl.
    assert (Hslice : slice_to (max_mappings_per_entity request) (@nil EntityMapping) = []).
    { unfold slice_to. destruct (_ <? 0)%Z; apply firstn_nil. }
    rewrite Hslice. simpl. destruct (_ <=? _)%Z; [reflexivity|].
    apply IH. intros e' He'. apply Hsub. right. exact He'. }
  apply H. auto.
Qed.

Lemma stand_in_scores (request : MapRequest) :
  forallb (fun e => forallb (stand_in_pair_scores e) (_load_docs request))
          (_load_entities request) = true.
Proof. vm_compute. reflexivity. Qed.

Lemma stand_in_pair (request : MapRequest) (e : CodeEntity) (d : DocEntity) :
  In e (_load_entities request) -> In d (_load_docs request) ->
  use_embeddings request = false ->
  exists m, score_pair e d request = Ok m /\ score m <= 1 # 15.
Proof.
  intros He Hd Hoff.
  pose proof (stand_in_scores request) as H.
  rewrite forallb_forall in H. specialize (H e He).
  rewrite forallb_forall in H. specialize (H d Hd).
  unfold stand_in_pair_scores in H. unfold _calculate_mapping_score.
  rewrite Hoff.
  destruct (HeuristicMatcher.calculate_heuristics_score e d) as [[h c]|x]; [|discriminate].
  destruct c; try discriminate. apply Qeq_bool_iff in H.
  assert (Hemb : match embedding e with
                 | Some (x :: ev) =>
                     match doc_embedding d with
                     | Some (y :: dv) => Ok 0
                     | _ => Ok 0
                     end
                 | _ => Ok 0
                 end = @Ok Q 0).
  { destruct (embedding e) as [[|? ?]|]; try reflexivity.
    destruct (doc_embedding d) as [[|? ?]|]; reflexivity. }
  destruct (use_heuristics request); simpl; rewrite Hemb; simpl;
    eexists; (split; [reflexivity|]); simpl; [rewrite H; apply Qle_refl | discriminate].
Qed.

(** The worker loads ten stand-in entities and ten stand-in docs whatever
    the request names.  With embeddings switched off every pair scores at
    most 1/15, so for every request whose threshold is above 1/15 - the
    default 0.3 included - it publishes a successful result without
    mappings, reporting ten entities and ten docs processed, and leaves the
    generator untouched. *)
Theorem worker_on_stand_in_data (g : EmbeddingGenerator) (request : MapRequest) :
  use_embeddings request = false ->
  1 # 15 < min_score_threshold request ->
  handle_map_request openai_embedding cosine_similarity g (Some request) =
    (Some {| res_project_id := req_project_id request;
             mappings := [];
             success := true;
             entities_processed := 10;
             docs_processed := 10;
             mappings_created := 0;
             res_request_id := request_id request |}, g).
Proof.
  intros Hoff Hthr. unfold handle_map_request, process_request, generate_mappings.
  rewrite Hoff. rewrite loop_all_below; [reflexivity|].
  intros e d He Hd. destruct (stand_in_pair request e d He Hd Hoff) as (m & Hm & Hle).
  exists m. split; [exact Hm | lra].
Qed.

(** The worker never publishes a failure: whatever it publishes has
    [success = true], counts the ten stand-in entities and docs, and
    reports as [mappings_created] the number of mappings it carries; when
    the message cannot be decoded, or scoring raises, nothing is published
    at all. *)
Theorem worker_never_reports_failure (g : EmbeddingGenerator)
    (decoded : option MapRequest) :
  match fst (handle_map_request openai_embedding cosine_similarity g decoded) with
  | Some r =>
      success r = true /\ entities_processed r = 10%nat /\ docs_processed r = 10%nat /\
      mappings_created r = length (mappings r) /\
      exists request,
        decoded = Some request /\
        res_project_id r = req_project_id request /\
        res_request_id r = request_id request /\
        fst (run g (_load_entities request) (_load_docs request) request)
        = Ok (mappings r)
  | None =>
      decoded = None \/
      exists request x,
        decoded = Some request /\
        fst (run g (_load_entities request) (_load_docs request) request) = Raise x
  end.
Proof.
  unfold handle_map_request. destruct decoded as [request|]; [|left; reflexivity].
  unfold process_request.
  destruct (run g (_load_entities request) (_load_docs request) request)
    as [[ms|x] g'] eqn:E; simpl.
  - do 4 (split; [reflexivity|]). exists request. repeat split.
    rewrite E. reflexivity.
  - right. exists request, x. split; [reflexivity | rewrite E; reflexivity].
Qed.


(** *** Relation and confidence without embeddings *)

(** With heuristics alone the blended score is the heuristic score, and
    relation and confidence are cut at the same two thresholds: every
    returned mapping is [describes] exactly when its confidence is high,
    [references] exactly when it is medium, [mentions] exactly when it is
    low. *)
Theorem relation_matches_confidence_without_embeddings (g : EmbeddingGenerator)
    (es : list CodeEntity) (docs : list DocEntity) (request : MapRequest)
    (ms : list EntityMapping) (m : EntityMapping) :
  use_embeddings request = false -> use_heuristics request = true ->
  fst (run g es docs request) = Ok ms -> In m ms ->
  score m = heuristics_score m /\ embedding_score m = 0 /\
  (relation m = Describes <-> confidence m = High) /\
  (relation m = References <-> confidence m = Medium) /\
  (relation m = Mentions <-> confidence m = Low).
Proof.
  intros Hoff Hon H Hin.
  destruct (run_in openai_embedding cosine_similarity g es docs request ms m H Hin)
    as (e & d & Hm & _).
  pose proof (score_pair_facts cosine_similarity e d request m Hm) as F.
  pose proof (pf_blend _ _ _ F) as Hb. rewrite Hoff, Hon in Hb. simpl in Hb.
  pose proof (pf_relation _ _ _ F) as Hr. pose proof (pf_confidence _ _ _ F) as Hc.
  rewrite Hb in Hr. unfold HeuristicMatcher.confidence_tier in Hc.
  split; [exact Hb|]. split.
  - unfold _calculate_mapping_score in Hm. rewrite Hoff in Hm.
    apply bind_ok in Hm. destruct Hm as (hc & _ & Hm).
    apply bind_ok in Hm. destruct Hm as (es0 & Hes0 & Hm). injection Hm as <-. simpl.
    destruct (embedding e) as [[|? ?]|]; try (injection Hes0 as <-; reflexivity).
    destruct (doc_embedding d) as [[|? ?]|]; injection Hes0 as <-; reflexivity.
  - rewrite Hr, Hc.
    destruct (Qle_bool (8 # 10) (heuristics_score m));
      [|destruct (Qle_bool (5 # 10) (heuristics_score m))];
      repeat split; intros; try reflexivity; discriminate.
Qed.

End MoreEngine.

(** ** The further theorems at sample inputs *)

Section MoreScenarios.
Import Sample.
Local Open Scope Q_scope.

Local Abbreviation run := (generate_mappings no_service crude_cosine (fresh_generator false)).

(** [mappings_link_supplied_items] on the parser's first mapping. *)
Lemma mappings_link_supplied_items_parser :
  exists ms m,
    fst (run [parser; lexer] library heuristics_only) = Ok ms /\ In m ms /\
    exists e d,
      In e [parser; lexer] /\ In d library /\
      entity_id m = id e /\ doc_id m = doc_id_of d /\
      mapping_project_id m = project_id e /\
      mapping_anchor m = _find_best_anchor e d /\
      metadata m = (kind e, lang e, title d) /\
      mapping_id m = id e +:+ ":" +:+ doc_id_of d /\ manual_override m = false.
Proof.
  eexists. eexists. split; [vm_compute; reflexivity|]. split; [left; reflexivity|].
  eapply (mappings_link_supplied_items no_service crude_cosine (fresh_generator false)
            [parser; lexer] library heuristics_only);
    [vm_compute; reflexivity | left; reflexivity].
Defined.

(** [name_similarity_with_itself] on the name [getUser]. *)
Lemma name_similarity_with_itself_getUser :
  _extract_words (Text.lower "getUser") = Ok ["getuser"] /\
  exists q, HeuristicMatcher._calculate_name_similarity "getUser" "getUser" = Ok q /\
            q == 1.
Proof.
  split; [reflexivity|].
  exact (name_similarity_with_itself "getUser" "getuser" [] eq_refl).
Defined.

(** [heading_similarity_is_best_heading] on the headings of the manual. *)
Lemma heading_similarity_is_best_heading_manual :
  exists q,
    HeuristicMatcher._calculate_heading_similarity "parser" (headings manual) = Ok q /\
    q == 1 /\
    ((forall h q', In h (headings manual) ->
        HeuristicMatcher._calculate_name_similarity "parser" (heading_text h) = Ok q' ->
        q' <= q) /\
     (q == 0 \/
      exists h q', In h (headings manual) /\
        HeuristicMatcher._calculate_name_similarity "parser" (heading_text h) = Ok q' /\
        q' == q)).
Proof.
  eexists. split; [vm_compute; reflexivity|]. split; [reflexivity|].
  apply (heading_similarity_is_best_heading "parser" (headings manual)).
  vm_compute. reflexivity.
Defined.

(** [no_high_confidence_without_headings] on the parser and a doc that has
    its name and its path but no heading: medium. *)
Lemma no_high_confidence_without_headings_parser_source :
  exists m,
    headings parser_source = [] /\
    _calculate_mapping_score crude_cosine parser parser_source heuristics_only = Ok m /\
    confidence m = Medium /\
    (heuristics_score m < 8 # 10 /\ confidence m <> High).
Proof.
  eexists. split; [reflexivity|]. split; [vm_compute; reflexivity|].
  split; [reflexivity|].
  apply (no_high_confidence_without_headings crude_cosine parser parser_source
           heuristics_only); [reflexivity | vm_compute; reflexivity].
Defined.

(** [best_candidates_kept] on three docs and a cap of two: the doc scoring
    0.4 is the one dropped. *)
Lemma best_candidates_kept_cap_two :
  exists ms,
    _map_entity_to_docs crude_cosine parser ranked_docs (request true false 2) = Ok ms /\
    map doc_id ms = ["source"; "guide"] /\
    exists scored cs dropped,
      Forall2 (fun d m => _calculate_mapping_score crude_cosine parser d
                            (request true false 2) = Ok m) ranked_docs scored /\
      cs = List.filter
             (fun m => Qle_bool (min_score_threshold (request true false 2)) (score m))
             scored /\
      Permutation cs (ms ++ dropped) /\
      (forall m c, In m ms -> In c dropped -> score c <= score m) /\
      ((Z.of_nat (length cs) <= max_mappings_per_entity (request true false 2))%Z ->
       dropped = []).
Proof.
  eexists. split; [vm_compute; reflexivity|]. split; [reflexivity|].
  apply (best_candidates_kept crude_cosine parser ranked_docs (request true false 2)).
  vm_compute. reflexivity.
Defined.

(** [generate_mappings_shape] on a cap of two: the parser fills the cap
    and the lexer is not reached. *)
Lemma generate_mappings_shape_cap_two :
  exists ms,
    fst (run [parser; lexer] ranked_docs (request true false 2)) = Ok ms /\
    map mapping_id ms = ["parser:source"; "parser:guide"] /\
    exists es' docs' results,
      Forall2 primed_from [parser; lexer] es' /\
      Forall2 doc_primed_from ranked_docs docs' /\
      Forall2 (fun e r => _map_entity_to_docs crude_cosine e docs'
                            (request true false 2) = Ok r)
              (firstn (length results) es') results /\
      ms = concat results /\
      ((length results = length [parser; lexer] /\
        Forall (fun r => (Z.of_nat (length r)
                          < max_mappings_per_entity (request true false 2))%Z)
               results) \/
       exists init r,
         results = (init ++ [r])%list /\
         Forall (fun r => (Z.of_nat (length r)
                           < max_mappings_per_entity (request true false 2))%Z)
                init /\
         (max_mappings_per_entity (request true false 2) <= Z.of_nat (length r))%Z).
Proof.
  eexists. split; [vm_compute; reflexivity|]. split; [reflexivity|].
  apply (generate_mappings_shape no_service crude_cosine (fresh_generator false)
           [parser; lexer] ranked_docs (request true false 2)).
  vm_compute. reflexivity.
Defined.

(** [mappings_total_bounded] on the defaults. *)
Lemma mappings_total_bounded_library :
  exists ms,
    (0 <= max_mappings_per_entity heuristics_only)%Z /\
    fst (run [parser; lexer] library heuristics_only) = Ok ms /\
    (Z.of_nat (length ms)
     <= max_mappings_per_entity heuristics_only * Z.of_nat (length [parser; lexer]))%Z.
Proof.
  eexists. split; [discriminate|]. split; [vm_compute; reflexivity|].
  apply (mappings_total_bounded no_service crude_cosine (fresh_generator false)
           [parser; lexer] library heuristics_only);
    [discriminate | vm_compute; reflexivity].
Defined.

(** [nonpositive_cap_scores_one_entity] on a cap of -1: of the parser's
    three candidates the lowest is cut, and the lexer is not scored. *)
Lemma nonpositive_cap_scores_one_entity_minus_one :
  (max_mappings_per_entity (request true false (-1)) <= 0)%Z /\
  (exists ms, fst (run (parser :: [lexer]) ranked_docs (request true false (-1))) = Ok ms /\
              map mapping_id ms = ["parser:source"; "parser:guide"]) /\
  exists e' docs',
    primed_from parser e' /\ Forall2 doc_primed_from ranked_docs docs' /\
    fst (run (parser :: [lexer]) ranked_docs (request true false (-1)))
    = _map_entity_to_docs crude_cosine e' docs' (request true false (-1)) /\
    (max_mappings_per_entity (request true false (-1)) = 0%Z ->
     forall ms, fst (run (parser :: [lexer]) ranked_docs (request true false (-1))) = Ok ms ->
                ms = []).
Proof.
  split; [discriminate|].
  split; [eexists; split; [vm_compute; reflexivity | reflexivity]|].
  apply (nonpositive_cap_scores_one_entity no_service crude_cosine (fresh_generator false)
           parser [lexer] ranked_docs (request true false (-1))).
  discriminate.
Defined.

(** [disabled_embeddings_are_ignored] on items that carry vectors. *)
Lemma disabled_embeddings_are_ignored_vectors :
  use_embeddings heuristics_only = false /\
  snd (run [set_entity_embedding parser east] [set_doc_embedding parser_source north]
           heuristics_only) = fresh_generator false /\
  fst (run [set_entity_embedding parser east] [set_doc_embedding parser_source north]
           heuristics_only) =
  fst (generate_mappings no_service crude_cosine (fresh_generator true)
         (map without_embedding [set_entity_embedding parser east])
         (map doc_without_embedding [set_doc_embedding parser_source north])
         heuristics_only).
Proof.
  split; [reflexivity|].
  apply (disabled_embeddings_are_ignored no_service crude_cosine
           (fresh_generator false) (fresh_generator true)).
  reflexivity.
Defined.

(** [doc_text_reads_five_headings] on two docs that differ in the sixth
    heading, the anchors and the id. *)
Lemma doc_text_reads_five_headings_manual :
  manual <> manual_copy /\
  title manual = title manual_copy /\ doc_path manual = doc_path manual_copy /\
  firstn 5 (map heading_text (headings manual))
  = firstn 5 (map heading_text (headings manual_copy)) /\
  (_doc_to_text manual = _doc_to_text manual_copy /\
   _get_cache_key (_doc_to_text manual) = _get_cache_key (_doc_to_text manual_copy)).
Proof.
  split; [discriminate|]. split; [reflexivity|]. split; [reflexivity|].
  split; [reflexivity|].
  apply (doc_text_reads_five_headings manual manual_copy); reflexivity.
Defined.

(** [fallback_vector_has_period_16] on the text [x]. *)
Lemma fallback_vector_has_period_16_x :
  (3 + 16 < 1536)%nat /\
  (nth 3 (_generate_mock_embedding "x") 0 =
     normalize_byte (nth (3 mod 16) (MD5.digest (MD5.encode "x")) 0%Z) /\
   nth (3 + 16) (_generate_mock_embedding "x") 0 = nth 3 (_generate_mock_embedding "x") 0).
Proof.
  split; [lia|]. apply (fallback_vector_has_period_16 "x" 3). lia.
Defined.

(** [worker_on_stand_in_data] on the default threshold. *)
Lemma worker_on_stand_in_data_defaults :
  use_embeddings heuristics_only = false /\
  1 # 15 < min_score_threshold heuristics_only /\
  handle_map_request no_service crude_cosine (fresh_generator false) (Some heuristics_only) =
    (Some {| res_project_id := req_project_id heuristics_only;
             mappings := [];
             success := true;
             entities_processed := 10;
             docs_processed := 10;
             mappings_created := 0;
             res_request_id := request_id heuristics_only |}, fresh_generator false).
Proof.
  split; [reflexivity|]. split; [reflexivity|].
  apply (worker_on_stand_in_data no_service crude_cosine); reflexivity.
Defined.

(** [relation_matches_confidence_without_embeddings] on the parser and the
    doc that has its name and path: references, medium. *)
Lemma relation_matches_confidence_parser_source :
  exists ms m,
    use_embeddings heuristics_only = false /\ use_heuristics heuristics_only = true /\
    fst (run [parser] [parser_source] heuristics_only) = Ok ms /\ In m ms /\
    relation m = References /\ confidence m = Medium /\
    (score m = heuristics_score m /\ embedding_score m = 0 /\
     (relation m = Describes <-> confidence m = High) /\
     (relation m = References <-> confidence m = Medium) /\
     (relation m = Mentions <-> confidence m = Low)).
Proof.
  eexists. eexists. split; [reflexivity|]. split; [reflexivity|].
  split; [vm_compute; reflexivity|]. split; [left; reflexivity|].
  split; [reflexivity|]. split; [reflexivity|].
  eapply (relation_matches_confidence_without_embeddings no_service crude_cosine
            (fresh_generator false) [parser] [parser_source] heuristics_only);
    [reflexivity | reflexivity | vm_compute; reflexivity | left; reflexivity].
Defined.

End MoreScenarios.
